(** * The Translator of the post "Building a super small and simple i18n
      script in JavaScript"

    A shallow embedding of the [Translator] class the post builds up
    ([getLanguage], the constructor, [load], [translate], [toggleLangTag]),
    together with the fragment of JavaScript it runs on: JSON values,
    property access [obj[i]], truthiness, string conversion, and the promise
    chain that [load] attaches to [fetch].

    Conventions.
    - A JavaScript string is a [string]; a character stands for one UTF-16
      code unit (code units below 256).
    - A number is an integer [Z], standing for the double nearest to it
      (itself, up to 2^53); JSON numbers with a fraction are not
      represented.
    - A statement either completes normally or throws: [completion].
    - What the host environment provides and the program does not define
      (members found on built-in prototypes, the text of host objects) is a
      parameter, [Host]. *)

From Stdlib Require Import ZArith String Ascii List Lia.
From stdpp Require Import base option list gmap strings pretty.

Set Warnings "-register-all".

Open Scope string_scope.

(** ** JavaScript values *)

(** What a parsed JSON document is made of, [undefined] (the result of
    reading an absent property) and host objects such as the functions found
    on built-in prototypes, which the program can reach but not inspect. *)
Inductive value : Type :=
  | VUndefined
  | VNull
  | VBool (b : bool)
  | VNum (n : Z)
  | VStr (s : string)
  | VArr (xs : list value)
  | VObj (fs : gmap string value)
  | VHost (name : string).

Inductive error : Type :=
  | TypeError      (* property read on undefined or null, failed conversion *)
  | SyntaxError    (* res.json() on a body that is not JSON *)
  | NetworkError.  (* fetch rejected *)

Inductive completion (A : Type) : Type :=
  | Normal (a : A)
  | Throw (e : error).
Arguments Normal {A} a.
Arguments Throw {A} e.

Definition completes {A : Type} (c : completion A) : bool :=
  match c with Normal _ => true | Throw _ => false end.

(** The host: [inherited v k] is what the prototype chain of [v] holds under
    the key [k] ([VUndefined] when it holds nothing), for a key that is not
    an own property of [v]; [host_ToString] is the string conversion of a
    host object. *)
Record Host : Type := mkHost {
  inherited : value -> string -> value;
  host_ToString : string -> completion string
}.

(** [if (v)]: undefined, null, false, 0 and the empty string are falsy. *)
Definition truthy (v : value) : bool :=
  match v with
  | VUndefined | VNull => false
  | VBool b => b
  | VNum n => negb (n =? 0)%Z
  | VStr s => negb (String.eqb s "")
  | VArr _ | VObj _ | VHost _ => true
  end.

(** ** Numbers

    A number is a double. [nearest_double z] is the double an integer [z]
    stands for: [z] itself when it lies between -2^53 and 2^53, beyond
    that the nearest multiple of the spacing of doubles at that size, a
    tie going to the even significand; [None] is an infinity, beyond the
    largest double. *)
Definition nearest_double (z : Z) : option Z :=
  let a := Z.abs z in
  if (a <? 2 ^ 53)%Z then Some z
  else
    let e := (Z.log2 a - 52)%Z in
    let q := Z.shiftr a e in
    let r := (a - Z.shiftl q e)%Z in
    let half := Z.shiftl 1 (e - 1) in
    let q' := if (half <? r)%Z || ((half =? r)%Z && Z.odd q)
              then (q + 1)%Z else q in
    let d := Z.shiftl q' e in
    if (d <? 2 ^ 1024)%Z then Some (Z.sgn z * d)%Z else None.

Definition rounds_to (x y : Z) : bool :=
  match nearest_double y with
  | Some d => (d =? x)%Z
  | None => false
  end.

Definition digits (y : Z) : nat := String.length (pretty y).

(** Among the decimals with [k] significant digits (and as many digits in
    all as [x]) that read back as the double [x], the one nearest to [x];
    of two equally near, the one whose last significant digit is even. *)
Definition decimal (x : Z) (k : nat) : option Z :=
  let unit := (10 ^ Z.of_nat (digits x - k))%Z in
  let lo := (x / unit * unit)%Z in
  let hi := (lo + unit)%Z in
  match rounds_to x lo, rounds_to x hi with
  | true, true =>
      Some (if (x - lo <? hi - x)%Z then lo
            else if (hi - x <? x - lo)%Z then hi
            else if Z.even (lo / unit) then lo else hi)
  | true, false => Some lo
  | false, true => Some hi
  | false, false => None
  end.

(** The decimal with the fewest significant digits that reads back as
    [x], trying [k], [k + 1], ... digits; [x] itself does with all its
    digits. *)
Fixpoint shortest (x : Z) (k fuel : nat) : Z :=
  match fuel with
  | O => x
  | S fuel' =>
      match decimal x k with
      | Some y => y
      | None => shortest x (S k) fuel'
      end
  end.

Fixpoint strip_zeros (fuel : nat) (y : Z) : Z :=
  match fuel with
  | O => y
  | S fuel' => if (y mod 10 =? 0)%Z then strip_zeros fuel' (y / 10) else y
  end.

(** [d.ddde+n] *)
Definition exponent_form (y : Z) : string :=
  let n := digits y in
  match pretty (strip_zeros n y) with
  | String d EmptyString => String d "" ++ "e+" ++ pretty (n - 1)
  | String d more => String d "." ++ more ++ "e+" ++ pretty (n - 1)
  | EmptyString => ""
  end.

(** [Number.prototype.toString] on an integer: its digits as long as it is
    below 2^53; beyond, the shortest decimal that reads back as the same
    double, padded with zeros up to 21 digits and in exponent form from
    there on. *)
Definition Number_toString (n : Z) : string :=
  if (Z.abs n <? 2 ^ 53)%Z then pretty n
  else
    (if (n <? 0)%Z then "-" else "") ++
    match nearest_double (Z.abs n) with
    | None => "Infinity"
    | Some x =>
        let y := shortest x 1 (digits x) in
        if (digits y <=? 21)%nat then pretty y else exponent_form y
    end.

(** The integer index a property key denotes among [n] elements: the [i]
    below [n] whose decimal spelling is the key itself (so "0" and "10" are
    indices, "01" and "+1" are not). *)
Definition index_of_key (n : nat) (k : string) : option nat :=
  fst <$> list_find (fun i : nat => bool_decide (pretty i = k)) (seq 0 n).

Definition char_at (s : string) (i : nat) : option string :=
  (fun c => String c EmptyString) <$> String.get i s.

Section WithHost.

Context (host : Host).

(** [obj[i]] with a string key. Reading a property of undefined or null
    throws; an object yields its own property, a string or an array its
    length and its indexed entries; everything else comes from the
    prototype chain. *)
Definition get (obj : value) (i : string) : completion value :=
  match obj with
  | VUndefined | VNull => Throw TypeError
  | VObj fs =>
      Normal (match fs !! i with
              | Some v => v
              | None => inherited host obj i
              end)
  | VStr s =>
      Normal (if String.eqb i "length" then VNum (Z.of_nat (String.length s))
              else match index_of_key (String.length s) i ≫= char_at s with
                   | Some c => VStr c
                   | None => inherited host obj i
                   end)
  | VArr xs =>
      Normal (if String.eqb i "length" then VNum (Z.of_nat (length xs))
              else match index_of_key (length xs) i ≫= (xs !!.) with
                   | Some v => v
                   | None => inherited host obj i
                   end)
  | VBool _ | VNum _ | VHost _ => Normal (inherited host obj i)
  end.

(** String conversion, as an assignment to [innerHTML] performs it. An
    object converts through [Object.prototype.toString] unless it carries
    an own [toString] entry, which (coming from JSON) is not callable and
    makes the conversion fail; an array joins its converted entries. *)
Fixpoint ToString (v : value) : completion string :=
  match v with
  | VUndefined => Normal "undefined"
  | VNull => Normal "null"
  | VBool true => Normal "true"
  | VBool false => Normal "false"
  | VNum n => Normal (Number_toString n)
  | VStr s => Normal s
  | VArr xs =>
      (fix join (xs : list value) : completion string :=
         match xs with
         | [] => Normal ""
         | x :: rest =>
             let item := match x with
                         | VUndefined | VNull => Normal ""
                         | _ => ToString x
                         end in
             match item, rest with
             | Throw e, _ => Throw e
             | Normal s, [] => Normal s
             | Normal s, _ :: _ =>
                 match join rest with
                 | Normal r => Normal (s ++ "," ++ r)
                 | Throw e => Throw e
                 end
             end
         end) xs
  | VObj fs =>
      match fs !! "toString" with
      | Some _ => Throw TypeError
      | None => Normal "[object Object]"
      end
  | VHost name => host_ToString host name
  end.

End WithHost.

(** ** Library functions the class calls *)

(** [s.split(sep)] for a one-character separator: never empty, the empty
    string splits into one empty segment. *)
Fixpoint split (sep : ascii) (s : string) : list string :=
  match s with
  | EmptyString => [EmptyString]
  | String c rest =>
      if Ascii.eqb c sep then EmptyString :: split sep rest
      else match split sep rest with
           | [] => [String c EmptyString]
           | seg :: segs => String c seg :: segs
           end
  end.

(** [s.substr(start, len)]. *)
Definition substr (s : string) (start len : nat) : string :=
  String.substring start len s.

(** [array.reduce(f, init)] with a callback that may throw. *)
Fixpoint reduce {A B : Type} (f : B -> A -> completion B) (l : list A) (init : B)
  : completion B :=
  match l with
  | [] => Normal init
  | x :: rest =>
      match f init x with
      | Normal acc => reduce f rest acc
      | Throw e => Throw e
      end
  end.

(** [nodeList.forEach(f)] over nodes that [f] may update: the nodes already
    visited keep their update when [f] throws, the remaining ones are not
    visited. *)
Fixpoint forEach {A : Type} (f : A -> completion A) (l : list A)
  : list A * completion unit :=
  match l with
  | [] => ([], Normal tt)
  | x :: rest =>
      match f x with
      | Normal x' => let '(rest', c) := forEach f rest in (x' :: rest', c)
      | Throw e => (x :: rest, Throw e)
      end
  end.

(** What [forEach] leaves of a node it visits: the callback's result, or the
    node as it was if the callback threw. *)
Definition visited {A : Type} (f : A -> completion A) (x : A) : A :=
  match f x with Normal x' => x' | Throw _ => x end.

(** ** The page the class runs in *)

(** An element carrying a [data-i18n] attribute: the key ([dataset.i18n])
    and the markup last assigned to [innerHTML]. The elements of the
    snapshot are distinct nodes, none nested in another. *)
Record Element : Type := mkElement {
  i18n : string;
  innerHTML : string
}.

(** [navigator.languages] (absent in older browsers) and
    [navigator.language]. *)
Record Navigator : Type := mkNavigator {
  languages : option (list string);
  language : string
}.

(** The fields of a [Translator] instance; [_elements] is the node list
    taken by the constructor, with the state of its nodes. *)
Record Translator : Type := mkTranslator {
  _lang : string;
  _elements : list Element
}.

(** What a run leaves behind besides element content. *)
Inductive event : Type :=
  | Fetch (url : string)
  | ConsoleError (msg : string)
  | SetLangAttr (lang : string).

(** The page: the instance, [navigator], the [lang] attribute of the
    document root, the requests issued by [fetch] and not yet settled
    (oldest first), and the events so far. *)
Record Page : Type := mkPage {
  this : Translator;
  navigator : Navigator;
  html_lang : string;
  pending : list string;
  trace : list event
}.

Definition set_innerHTML (markup : string) (element : Element) : Element :=
  mkElement (i18n element) markup.

Definition set_lang (lang : string) (p : Page) : Page :=
  mkPage (mkTranslator lang (_elements (this p)))
         (navigator p) (html_lang p) (pending p) (trace p).

Definition set_elements (els : list Element) (p : Page) : Page :=
  mkPage (mkTranslator (_lang (this p)) els)
         (navigator p) (html_lang p) (pending p) (trace p).

Definition set_html_lang (lang : string) (p : Page) : Page :=
  mkPage (this p) (navigator p) lang (pending p) (trace p ++ [SetLangAttr lang]).

Definition set_pending (reqs : list string) (p : Page) : Page :=
  mkPage (this p) (navigator p) (html_lang p) reqs (trace p).

Definition emit (e : event) (p : Page) : Page :=
  mkPage (this p) (navigator p) (html_lang p) (pending p) (trace p ++ [e]).

(** ** Code that reads and writes the page *)

Definition Js (A : Type) : Type := Page -> Page * completion A.

(** [m.then(f)]: a rejection skips [f]. *)
Definition then_ {A B : Type} (m : Js A) (f : A -> Js B) : Js B :=
  fun p =>
    match m p with
    | (p', Normal a) => f a p'
    | (p', Throw e) => (p', Throw e)
    end.

(** [m.catch(h)]: [h] runs on the page as the failed step left it. *)
Definition catch_ {A : Type} (m : Js A) (h : error -> Js A) : Js A :=
  fun p =>
    match m p with
    | (p', Normal a) => (p', Normal a)
    | (p', Throw e) => h e p'
    end.

Definition console_error (msg : string) : Js unit :=
  fun p => (emit (ConsoleError msg) p, Normal tt).

(** [fetch(url)]: the request joins the pending ones. *)
Definition fetch (url : string) : Js unit :=
  fun p => (emit (Fetch url) (set_pending (pending p ++ [url]) p), Normal tt).

(** How a request ends: [fetch] rejects, or it fulfils with a response
    whose body is JSON or is not. *)
Inductive body : Type :=
  | NotJson
  | Json (translation : value).

Inductive settlement : Type :=
  | Rejected
  | Fulfilled (res : body).

Definition settled (s : settlement) : Js body :=
  fun p =>
    match s with
    | Rejected => (p, Throw NetworkError)
    | Fulfilled res => (p, Normal res)
    end.

(** [res.json()] *)
Definition json (res : body) : Js value :=
  fun p =>
    match res with
    | NotJson => (p, Throw SyntaxError)
    | Json translation => (p, Normal translation)
    end.

(** ** The Translator class *)

(** [[
getLanguage() {
  var lang = navigator.languages ? navigator.languages[0] : navigator.language;
  return lang.substr(0, 2);
}
]]
    An array is truthy even when empty; its entry 0 is then undefined and
    [substr] has nothing to be called on. *)
Definition getLanguage (nav : Navigator) : completion string :=
  match languages nav with
  | Some ls =>
      match ls !! 0%nat with
      | Some lang => Normal (substr lang 0 2)
      | None => Throw TypeError
      end
  | None => Normal (substr (language nav) 0 2)
  end.

(** [[
constructor() {
  this._lang = this.getLanguage();
  this._elements = document.querySelectorAll("[data-i18n]");
}
]]
    [tagged] is what the selector finds in the document. *)
Definition constructor (nav : Navigator) (tagged : list Element)
  : completion Translator :=
  match getLanguage nav with
  | Normal lang => Normal (mkTranslator lang tagged)
  | Throw e => Throw e
  end.

(** [[
toggleLangTag() {
  if (document.documentElement.lang !== this._lang) {
    document.documentElement.lang = this._lang;
  }
}
]] *)
Definition toggleLangTag : Js unit :=
  fun p =>
    if negb (String.eqb (html_lang p) (_lang (this p)))
    then (set_html_lang (_lang (this p)) p, Normal tt)
    else (p, Normal tt).

Section Translate.

Context (host : Host).

(** The key path of an element walked through the document:
    [keys.reduce((obj, i) => obj[i], translation)]. *)
Definition resolve (key : string) (translation : value) : completion value :=
  reduce (get host) (split "." key) translation.

(** The callback of [forEach]:
[[
var keys = element.dataset.i18n.split(".")
var text = keys.reduce((obj, i) => obj[i], translation)

if (text) {
element.innerHTML = text
}
]]
    Both places that can throw come before the assignment takes effect,
    so a throw leaves the element as it was. *)
Definition translate_element (translation : value) (element : Element)
  : completion Element :=
  match resolve (i18n element) translation with
  | Throw e => Throw e
  | Normal text =>
      if truthy text then
        match ToString host text with
        | Normal markup => Normal (set_innerHTML markup element)
        | Throw e => Throw e
        end
      else Normal element
  end.

(** [[
translate(translation) {
this._elements.forEach((element) => { ... });
}
]] *)
Definition translate (translation : value) : Js unit :=
  fun p =>
    let '(els, c) := forEach (translate_element translation)
                             (_elements (this p)) in
    (set_elements els p, c).

(** The handlers [load] attaches to its request:
[[
.then((res) => res.json())
.then((translation) => {
  this.translate(translation);
})
.catch(() => {
  console.error(`Could not load ${this._lang}.json.`);
});
]]
    The message reads [this._lang] when the handler runs. *)
Definition on_settle (s : settlement) : Js unit :=
  catch_
    (then_ (then_ (settled s) json) translate)
    (fun _ p => console_error ("Could not load " ++ _lang (this p) ++ ".json.") p).

(** The [i]-th pending request settles; its handlers run. Any pending
    request may settle at any moment, in any order. *)
Definition settle (i : nat) (s : settlement) : Js unit :=
  fun p =>
    match pending p !! i with
    | Some _ => on_settle s (set_pending (delete i (pending p)) p)
    | None => (p, Normal tt)
    end.

End Translate.

(** [[
load(lang = null) {
  if (lang) {
    this._lang = lang;
  }

  fetch(`/i18n/${this._lang}.json`)
    .then(...).then(...).catch(...);
}
]]
    The part that runs in the caller's turn: the assignment and the request.
    The argument is [None] when omitted or null. Nothing here reads
    [navigator] or calls [getLanguage], and nothing calls [toggleLangTag]. *)
Definition load (lang : option string) : Js unit :=
  fun p =>
    let p1 := match lang with
              | Some l => if truthy (VStr l) then set_lang l p else p
              | None => p
              end in
    fetch ("/i18n/" ++ _lang (this p1) ++ ".json") p1.

(** One request from call to settlement, nothing else in between. *)
Definition load_then_settle (host : Host) (lang : option string) (s : settlement)
  : Js unit :=
  fun p =>
    let p1 := fst (load lang p) in
    settle host (length (pending p)) s p1.

(** A run of the page: calls of [load] by the page's scripts and
    settlements of pending requests, in the order the event loop delivers
    them. *)
Inductive action : Type :=
  | Load (lang : option string)
  | Settle (i : nat) (s : settlement).

Definition step (host : Host) (a : action) (p : Page) : Page :=
  match a with
  | Load lang => fst (load lang p)
  | Settle i s => fst (settle host i s p)
  end.

Definition run (host : Host) (acts : list action) (p : Page) : Page :=
  fold_left (fun q a => step host a q) acts p.

(** The number of times a run assigned the [lang] attribute of the root. *)
Definition lang_writes (t : list event) : nat :=
  length (List.filter (fun e => match e with SetLangAttr _ => true | _ => false end) t).

(** A request that does not deliver a translation document. *)
Definition retrieval_failed (s : settlement) : bool :=
  match s with
  | Fulfilled (Json _) => false
  | Rejected | Fulfilled NotJson => true
  end.

(** A host whose prototypes are empty. It agrees with a browser on every
    key that no built-in prototype defines, which is all the closed examples
    below use it for. *)
Definition bare_host : Host :=
  mkHost (fun _ _ => VUndefined)
         (fun name => Normal ("function " ++ name ++ "() { [native code] }")).

(** The translation file of the post, with the header text of the
    end-to-end example. *)
Definition en_json : value :=
  VObj {[ "greeting" := VStr "Hello World";
          "header" := VObj {[ "title" := VStr "Header";
                              "button" := VStr "Click me!" ]} ]}.

Definition de_json : value :=
  VObj {[ "greeting" := VStr "Hallo Welt";
          "header" := VObj {[ "title" := VStr "Kopfzeile";
                              "button" := VStr "Klick mich!" ]} ]}.

Definition es_json : value :=
  VObj {[ "greeting" := VStr "Hola Mundo";
          "header" := VObj {[ "title" := VStr "Cabecera";
                              "button" := VStr "Haz clic" ]} ]}.

(** The document of the two-segment example. *)
Definition ab_json : value := VObj {[ "a" := VObj {[ "b" := VStr "X" ]} ]}.

Definition sample_elements : list Element :=
  [ mkElement "greeting" "This is some English title";
    mkElement "header.title" "-";
    mkElement "header.button" "-" ].

Definition sample_page : Page :=
  mkPage (mkTranslator "en" sample_elements)
         (mkNavigator (Some ["en-US"; "en"; "de-DE"]) "en-US")
         "en" [] [].


(** ** Vocabulary for the further properties *)

(** [array.join(sep)]. *)
Fixpoint join (sep : string) (l : list string) : string :=
  match l with
  | [] => ""
  | [x] => x
  | x :: rest => x ++ sep ++ join sep rest
  end.

(** A key without a dot: a single path segment. *)
Fixpoint dot_free (s : string) : bool :=
  match s with
  | EmptyString => true
  | String c rest => negb (Ascii.eqb c ".") && dot_free rest
  end.

Fixpoint count_dots (s : string) : nat :=
  match s with
  | EmptyString => 0
  | String c rest => (if Ascii.eqb c "." then 1 else 0) + count_dots rest
  end.

(** The key resolves, in the document, to a truthy value that converts to
    a string: the callback writes the element. *)
Definition fully_resolves (host : Host) (translation : value) (key : string)
  : bool :=
  match resolve host key translation with
  | Normal text => truthy text && completes (ToString host text)
  | Throw _ => false
  end.

(** The key resolves to a falsy value: the callback skips the element. *)
Definition resolves_falsy (host : Host) (translation : value) (key : string)
  : bool :=
  match resolve host key translation with
  | Normal text => negb (truthy text)
  | Throw _ => false
  end.

(** The language the calls of [load] in a run ask for last, starting from
    [init]: a call without a code, or with the empty string, asks for
    nothing new. *)
Fixpoint requested_language (acts : list action) (init : string) : string :=
  match acts with
  | [] => init
  | Load (Some code) :: rest =>
      requested_language rest (if String.eqb code "" then init else code)
  | _ :: rest => requested_language rest init
  end.

(** The calls of [load] in a run. *)
Definition loads (acts : list action) : nat :=
  length (List.filter (fun a => match a with Load _ => true | Settle _ _ => false end)
                      acts).

(** The page right after [new Translator()]: nothing requested, nothing
    logged. *)
Definition fresh_page (t : Translator) (nav : Navigator) (marker : string)
  : Page :=
  mkPage t nav marker [] [].

(** * The BadgeInput web component of the post "Building a Practical Web
      Component"

    The custom element that collects e-mail addresses as badges: the
    handlers for key presses, clicks and pastes, the validation, and the
    rendering of the list. *)

Module BadgeInput.

(** ** Characters and the string functions the component calls *)

Definition code_in (lo hi : nat) (c : ascii) : bool :=
  (lo <=? nat_of_ascii c)%nat && (nat_of_ascii c <=? hi)%nat.

(** [\d] *)
Definition is_digit (c : ascii) : bool := code_in 48 57 c.

(** [\w]: letters, digits and the underscore. *)
Definition is_word (c : ascii) : bool :=
  code_in 65 90 c || code_in 97 122 c || is_digit c || Ascii.eqb c "_".

(** The class [[\w\d\.-]]. *)
Definition email_char (c : ascii) : bool :=
  is_word c || is_digit c || Ascii.eqb c "." || Ascii.eqb c "-".

(** White space and line terminators, as [trim] sees them: tab, line feed,
    vertical tab, form feed, carriage return, space, no-break space. *)
Definition is_space (c : ascii) : bool :=
  code_in 9 13 c || Ascii.eqb c " " || (nat_of_ascii c =? 160)%nat.

Fixpoint trimStart (s : string) : string :=
  match s with
  | EmptyString => EmptyString
  | String c rest => if is_space c then trimStart rest else s
  end.

Fixpoint trimEnd (s : string) : string :=
  match s with
  | EmptyString => EmptyString
  | String c rest =>
      match trimEnd rest with
      | EmptyString => if is_space c then EmptyString else String c EmptyString
      | kept => String c kept
      end
  end.

(** [s.trim()] *)
Definition trim (s : string) : string := trimEnd (trimStart s).

(** [array.includes(x)] on strings. *)
Definition includes (l : list string) (x : string) : bool :=
  existsb (String.eqb x) l.

(** ** Regular expressions, as far as the component uses them

    A literal character, one or more characters of a class (greedy), and
    concatenation. [exec r s k] matches [r] at the start of [s] the way a
    backtracking matcher does: it hands what remains to the continuation
    [k], longest repetition first, and gives the first success. *)
Inductive regex : Type :=
  | Chr (c : ascii)
  | OneOrMore (class : ascii -> bool)
  | Cat (r1 r2 : regex).

Fixpoint greedy (class : ascii -> bool) (s : string)
         (k : string -> option string) : option string :=
  match s with
  | EmptyString => None
  | String c rest =>
      if class c then
        match greedy class rest k with
        | Some after => Some after
        | None => k rest
        end
      else None
  end.

Fixpoint exec (r : regex) (s : string) (k : string -> option string)
  : option string :=
  match r with
  | Chr c =>
      match s with
      | String c' rest => if Ascii.eqb c c' then k rest else None
      | EmptyString => None
      end
  | OneOrMore class => greedy class s k
  | Cat r1 r2 => exec r1 s (fun s' => exec r2 s' k)
  end.

(** A match of [r] at the start of [s]: what is left after it. *)
Definition match_here (r : regex) (s : string) : option string :=
  exec r s Some.

(** The first match in [s], searching from the left: the matched text and
    what follows it. *)
Fixpoint search (r : regex) (s : string) : option (string * string) :=
  match match_here r s with
  | Some after =>
      Some (String.substring 0 (String.length s - String.length after) s, after)
  | None =>
      match s with
      | EmptyString => None
      | String _ rest => search r rest
      end
  end.

(** [regex.test(s)] *)
Definition test (r : regex) (s : string) : bool :=
  match search r s with Some _ => true | None => false end.

(** The successive matches of a global regular expression, each search
    starting where the previous match ended. [fuel] bounds the number of
    matches; a match of the expressions used here is never empty, so the
    length of the string is enough. *)
Fixpoint matches (fuel : nat) (r : regex) (s : string) : list string :=
  match fuel with
  | O => []
  | S fuel' =>
      match search r s with
      | Some (found, after) => found :: matches fuel' r after
      | None => []
      end
  end.

(** [s.match(r)] for a global [r]: null when nothing matches. *)
Definition match_all (r : regex) (s : string) : option (list string) :=
  match matches (String.length s) r s with
  | [] => None
  | found => Some found
  end.

(** [/[\w\d\.-]+@[\w\d\.-]+\.[\w\d\.-]+/] *)
Definition email_regex : regex :=
  Cat (OneOrMore email_char)
      (Cat (Chr "@")
           (Cat (OneOrMore email_char)
                (Cat (Chr ".") (OneOrMore email_char)))).

(** ** The component *)

(** [const TRIGGER_KEYS = ["Enter", "Tab", ","]] *)
Definition TRIGGER_KEYS : list string := ["Enter"; "Tab"; ","].

(** The instance: [_items], and what it keeps of its three elements, the
    value and the [has-error] class of the input, the text and the
    [hidden] attribute of the error paragraph, the markup of the list. *)
Record Badges : Type := mkBadges {
  _items : list string;
  input_value : string;
  input_has_error : bool;
  error_textContent : string;
  error_hidden : bool;
  list_innerHTML : string
}.

(** The constructor: no items, and the elements as the template has them
    ([<ul></ul>], an empty input, [<p hidden></p>]). *)
Definition constructor : Badges := mkBadges [] "" false "" true "".

Definition newline : string := String (ascii_of_nat 10) EmptyString.
Definition quote : string := String (ascii_of_nat 34) EmptyString.

(** The template literal of [update], line breaks and indentation
    included. *)
Definition item_markup (item : string) : string :=
  newline ++ "      <li>" ++
  newline ++ "        " ++ item ++
  newline ++ "        <button type=" ++ quote ++ "button" ++ quote ++
             " data-value=" ++ quote ++ item ++ quote ++ ">&times;</button>" ++
  newline ++ "      </li>" ++
  newline ++ "      ".

(** [[
update() {
  this._list.innerHTML = this._items.map(function(item) { ... }).join("");
}
]] *)
Definition update (b : Badges) : Badges :=
  mkBadges (_items b) (input_value b) (input_has_error b)
           (error_textContent b) (error_hidden b)
           (join "" (map item_markup (_items b))).

(** [[
isInList(email) { return this._items.includes(email); }
isEmail(email) { return /[\w\d\.-]+@[\w\d\.-]+\.[\w\d\.-]+/.test(email); }
]] *)
Definition isInList (b : Badges) (email : string) : bool :=
  includes (_items b) email.

Definition isEmail (email : string) : bool := test email_regex email.

(** [[
validate(email) {
  var error = null;
  if (this.isInList(email)) { error = `${email} has already been added.`; }
  if (!this.isEmail(email)) { error = `${email} is not a valid email address.`; }
  if (error) {
    this._error.textContent = error;
    this._error.removeAttribute("hidden");
    this._input.classList.add("has-error");
    return false;
  }
  return true;
}
]]
    Both messages start with the value and end in text, so [error] is
    truthy as soon as it is set. *)
Definition validate (b : Badges) (email : string) : Badges * bool :=
  let error1 := if isInList b email
                then Some (email ++ " has already been added.") else None in
  let error2 := if negb (isEmail email)
                then Some (email ++ " is not a valid email address.")
                else error1 in
  match error2 with
  | Some error =>
      (mkBadges (_items b) (input_value b) true error false (list_innerHTML b),
       false)
  | None => (b, true)
  end.

(** [[
handleKeyDown = (evt) => {
  this._error.setAttribute("hidden", true);
  this._input.classList.remove("has-error");

  if (TRIGGER_KEYS.includes(evt.key)) {
    evt.preventDefault();
    var value = evt.target.value.trim();
    if (value && this.validate(value)) {
      evt.target.value = "";
      this._items.push(value);
      this.update();
    }
  }
};
]]
    [evt.target] is the input. The result says whether the default action
    of the key was prevented. *)
Definition handleKeyDown (key : string) (b : Badges) : Badges * bool :=
  let b1 := mkBadges (_items b) (input_value b) false
                     (error_textContent b) true (list_innerHTML b) in
  if includes TRIGGER_KEYS key then
    let value := trim (input_value b1) in
    if negb (String.eqb value "") then
      match validate b1 value with
      | (b2, true) =>
          (update (mkBadges (_items b2 ++ [value]) "" (input_has_error b2)
                            (error_textContent b2) (error_hidden b2)
                            (list_innerHTML b2)),
           true)
      | (b2, false) => (b2, true)
      end
    else (b1, true)
  else (b1, false).

(** The target of a click inside the list: its tag name, and its
    [data-value] attribute when it has one. *)
Record ClickTarget : Type := mkClickTarget {
  tagName : string;
  dataset_value : option string
}.

(** [[
handleDelete = evt => {
  if (evt.target.tagName === "BUTTON") {
    this._items = this._items.filter(item => item !== evt.target.dataset.value);
    this.update();
  }
};
]]
    Without the attribute [dataset.value] is undefined, which no item
    equals. *)
Definition handleDelete (target : ClickTarget) (b : Badges) : Badges :=
  if String.eqb (tagName target) "BUTTON" then
    update (mkBadges
              (List.filter
                 (fun item => match dataset_value target with
                              | Some v => negb (String.eqb item v)
                              | None => true
                              end)
                 (_items b))
              (input_value b) (input_has_error b) (error_textContent b)
              (error_hidden b) (list_innerHTML b))
  else b.

(** [[
handlePaste = evt => {
  evt.preventDefault();
  var paste = evt.clipboardData.getData("text");
  var emails = paste.match(/[\w\d\.-]+@[\w\d\.-]+\.[\w\d\.-]+/g);
  if (emails) {
    var toBeAdded = emails.filter(email => !this.isInList(email));
    this._items = [...this._items, ...toBeAdded];
    this.update();
  }
};
]] *)
Definition handlePaste (paste : string) (b : Badges) : Badges :=
  match match_all email_regex paste with
  | Some emails =>
      let toBeAdded := List.filter (fun email => negb (isInList b email)) emails in
      update (mkBadges (_items b ++ toBeAdded) (input_value b)
                       (input_has_error b) (error_textContent b)
                       (error_hidden b) (list_innerHTML b))
  | None => b
  end.

(** What happens to the component: the user types (the input's value
    changes), presses a key, clicks inside the list, pastes. *)
Inductive user_event : Type :=
  | Typed (text : string)
  | KeyDown (key : string)
  | Click (target : ClickTarget)
  | Paste (text : string).

Definition handle (e : user_event) (b : Badges) : Badges :=
  match e with
  | Typed text =>
      mkBadges (_items b) text (input_has_error b) (error_textContent b)
               (error_hidden b) (list_innerHTML b)
  | KeyDown key => fst (handleKeyDown key b)
  | Click target => handleDelete target b
  | Paste text => handlePaste text b
  end.

Definition session (events : list user_event) (b : Badges) : Badges :=
  fold_left (fun acc e => handle e acc) events b.

(** All characters of a string are in the class. *)
Fixpoint all_chars (class : ascii -> bool) (s : string) : bool :=
  match s with
  | EmptyString => true
  | String c rest => class c && all_chars class rest
  end.

(** The strings a regular expression stands for. *)
Fixpoint in_language (r : regex) (u : string) : Prop :=
  match r with
  | Chr c => u = String c EmptyString
  | OneOrMore class => u <> EmptyString /\ all_chars class u = true
  | Cat r1 r2 =>
      exists u1 u2, u = u1 ++ u2 /\ in_language r1 u1 /\ in_language r2 u2
  end.

(** A text laid out as stretches of other text, each followed by an
    address, and what comes after the last address. *)
Fixpoint laid_out (parts : list (string * string)) (rest : string) : string :=
  match parts with
  | [] => rest
  | (gap, found) :: more => gap ++ found ++ laid_out more rest
  end.

(** A session in which nothing is pasted. *)
Definition without_paste (events : list user_event) : bool :=
  forallb (fun e => match e with Paste _ => false | _ => true end) events.

(** The list shows the items: its markup is what [update] builds from
    them. *)
Definition rendered (b : Badges) : Prop :=
  list_innerHTML b = join "" (map item_markup (_items b)).

(** ** The list as the browser reads it back

    The buttons the HTML parser builds from the markup assigned to
    [innerHTML], with their [data-value]: what a click inside the list can
    hit. The reader covers the markup in which no item brings markup of
    its own. Text runs up to the next "<" and an attribute value in double
    quotes up to the next double quote, character by character; "&" (the
    start of a character reference), NUL and carriage return (which the
    parser replaces) are read nowhere but in the "&times;" of the template.
    On any other markup the reader gives [None]. *)

Definition verbatim (c : ascii) : bool :=
  negb (Ascii.eqb c "&" || (nat_of_ascii c =? 0)%nat || (nat_of_ascii c =? 13)%nat).

(** The characters before the first [stop], and what follows it. *)
Fixpoint read_until (stop : ascii) (s : string) : option (string * string) :=
  match s with
  | EmptyString => None
  | String c rest =>
      if Ascii.eqb c stop then Some (EmptyString, rest)
      else if verbatim c then
        match read_until stop rest with
        | Some (u, after) => Some (String c u, after)
        | None => None
        end
      else None
  end.

(** [s] without [lit] in front of it. *)
Fixpoint expect (lit s : string) : option string :=
  match lit with
  | EmptyString => Some s
  | String c lit' =>
      match s with
      | String c' s' => if Ascii.eqb c c' then expect lit' s' else None
      | EmptyString => None
      end
  end.

(** One [li] of the list: the [data-value] of its button, and the markup
    after it. *)
Definition read_badge (s : string) : option (string * string) :=
  match expect (newline ++ "      <li>") s with
  | None => None
  | Some s1 =>
      match read_until "<" s1 with
      | None => None
      | Some (_, s2) =>
          match expect ("button type=" ++ quote ++ "button" ++ quote ++
                        " data-value=" ++ quote) s2 with
          | None => None
          | Some s3 =>
              match read_until (ascii_of_nat 34) s3 with
              | None => None
              | Some (value, s4) =>
                  match expect (">&times;</button>" ++
                                newline ++ "      </li>" ++
                                newline ++ "      ") s4 with
                  | None => None
                  | Some s5 => Some (value, s5)
                  end
              end
          end
      end
  end.

Fixpoint read_badges (fuel : nat) (s : string) : option (list string) :=
  match s with
  | EmptyString => Some []
  | String _ _ =>
      match fuel with
      | O => None
      | S fuel' =>
          match read_badge s with
          | None => None
          | Some (value, rest) =>
              match read_badges fuel' rest with
              | None => None
              | Some values => Some (value :: values)
              end
          end
      end
  end.

(** The buttons of the list, in document order. *)
Definition buttons (markup : string) : option (list ClickTarget) :=
  match read_badges (String.length markup) markup with
  | None => None
  | Some values => Some (map (fun v => mkClickTarget "BUTTON" (Some v)) values)
  end.

(** An item without markup of its own: no "<", no double quote, and only
    characters the parser takes as they are. *)
Definition plain (item : string) : bool :=
  all_chars (fun c => verbatim c && negb (Ascii.eqb c "<") &&
                      negb (Ascii.eqb c (ascii_of_nat 34))) item.

End BadgeInput.

(** * The email chips of the post "How to create email chips in pure
      React"

    The React class component: its state object, and the handlers for
    changes, key presses, deletions and pastes with the validation they
    call. The state is the JavaScript object it is, read with [obj[i]]. *)

Module EmailChips.

(** [c] and then [f] on its result; a throw ends the sequence. *)
Definition and_then {A B : Type} (c : completion A) (f : A -> completion B)
  : completion B :=
  match c with
  | Normal a => f a
  | Throw e => Throw e
  end.

(** [[
state = {
  value: "",
  emails: [],
  error: null,
}
]] *)
Definition initial_state : gmap string value :=
  {[ "value" := VStr ""; "emails" := VArr []; "error" := VNull ]}.

(** [this.setState(partial)]: the entries of [partial] are merged into the
    state. *)
Definition setState (partial st : gmap string value) : gmap string value :=
  partial ∪ st.

(** [x === s] for a string [s]. *)
Definition is_string (x : value) (s : string) : bool :=
  match x with
  | VStr t => String.eqb t s
  | _ => false
  end.

(** [hay.includes(needle)] on strings. *)
Fixpoint contains (needle hay : string) : bool :=
  String.prefix needle hay ||
  match hay with
  | EmptyString => false
  | String _ rest => contains needle rest
  end.

Fixpoint chars (s : string) : list value :=
  match s with
  | EmptyString => []
  | String c rest => VStr (String c EmptyString) :: chars rest
  end.

(** [v.trim()]: only a string has the method. *)
Definition trim_of (v : value) : completion string :=
  match v with
  | VStr s => Normal (BadgeInput.trim s)
  | _ => Throw TypeError
  end.

(** [[...v]]: an array spreads into its entries, a string into its
    characters, nothing else is iterable. *)
Definition spread (v : value) : completion (list value) :=
  match v with
  | VArr xs => Normal xs
  | VStr s => Normal (chars s)
  | _ => Throw TypeError
  end.

(** [v.includes(email)]: arrays and strings have the method. *)
Definition includes_of (v : value) (email : string) : completion bool :=
  match v with
  | VArr xs => Normal (existsb (fun x => is_string x email) xs)
  | VStr s => Normal (contains email s)
  | _ => Throw TypeError
  end.

(** [v.filter(f)]: only an array has the method. *)
Definition filter_of (v : value) (f : value -> bool) : completion (list value) :=
  match v with
  | VArr xs => Normal (List.filter f xs)
  | _ => Throw TypeError
  end.

(** [array.filter(f)] with a callback that may throw. *)
Fixpoint filter_throwing (f : string -> completion bool) (l : list string)
  : completion (list string) :=
  match l with
  | [] => Normal []
  | x :: rest =>
      and_then (f x) (fun keep =>
      and_then (filter_throwing f rest) (fun kept =>
      Normal (if keep then x :: kept else kept)))
  end.

Section Component.

Context (host : Host).

(** [this.state.name] *)
Definition read (st : gmap string value) (name : string) : completion value :=
  get host (VObj st) name.

(** [[
isEmail(email) {
  return /[\w\d\.-]+@[\w\d\.-]+\.[\w\d\.-]+/.test(email);
}
]] *)
Definition isEmail (email : string) : bool :=
  BadgeInput.test BadgeInput.email_regex email.

(** [[
isInList(email) {
  return this.state.items.includes(email);
}
]] *)
Definition isInList (st : gmap string value) (email : string) : completion bool :=
  and_then (read st "items") (fun items => includes_of items email).

(** [[
isValid(email) {
  var error = null;
  if (!this.isEmail(email)) { error = `${email} is not a valid email address.`; }
  if (this.isInList(email)) { error = `${email} has already been added.`; }
  if (error) {
    this.setState({ error });
    return false;
  }
  return true;
}
]]
    The state as [setState] leaves it, and the result. *)
Definition isValid (st : gmap string value) (email : string)
  : completion (gmap string value * bool) :=
  let error1 := if negb (isEmail email)
                then Some (email ++ " is not a valid email address.") else None in
  and_then (isInList st email) (fun listed =>
  let error2 := if listed then Some (email ++ " has already been added.")
                else error1 in
  match error2 with
  | Some error => Normal (setState {[ "error" := VStr error ]} st, false)
  | None => Normal (st, true)
  end).

(** [[
handleChange = evt => {
  this.setState({ value: evt.target.value, error: null })
}
]] *)
Definition handleChange (text : string) (st : gmap string value)
  : gmap string value :=
  setState {[ "value" := VStr text; "error" := VNull ]} st.

(** [[
handleKeyDown = evt => {
  if (["Enter", "Tab", ","].includes(evt.key)) {
    evt.preventDefault()
    var email = this.state.value.trim()
    if (email && this.isValid(email)) {
      this.setState({ emails: [...this.state.emails, email], value: "" })
    }
  }
}
]]
    Whether the default action was prevented, and the state after the
    handler, or the exception that leaves it. *)
Definition handleKeyDown (key : string) (st : gmap string value)
  : bool * completion (gmap string value) :=
  if BadgeInput.includes ["Enter"; "Tab"; ","] key then
    (true,
     and_then (read st "value") (fun v =>
     and_then (trim_of v) (fun email =>
     if negb (String.eqb email "") then
       and_then (isValid st email) (fun '(st1, valid) =>
       if valid then
         and_then (read st "emails") (fun emails =>
         and_then (spread emails) (fun xs =>
         Normal (setState {[ "emails" := VArr (xs ++ [VStr email]);
                             "value" := VStr "" ]} st1)))
       else Normal st1)
     else Normal st)))
  else (false, Normal st).

(** [[
handleDelete = toBeRemoved => {
  this.setState({
    emails: this.state.emails.filter(email => email !== toBeRemoved),
  })
}
]] *)
Definition handleDelete (toBeRemoved : string) (st : gmap string value)
  : completion (gmap string value) :=
  and_then (read st "emails") (fun emails =>
  and_then (filter_of emails (fun email => negb (is_string email toBeRemoved)))
           (fun kept =>
  Normal (setState {[ "emails" := VArr kept ]} st))).

(** [[
handlePaste = (evt) => {
  evt.preventDefault();
  var paste = evt.clipboardData.getData('text');
  var emails = paste.match(/[\w\d\.-]+@[\w\d\.-]+\.[\w\d\.-]+/g);
  if (emails) {
    var toBeAdded = emails.filter(email => !this.isInList(email));
    this.setState({ emails: [...this.state.emails, ...toBeAdded] });
  }
};
]] *)
Definition handlePaste (paste : string) (st : gmap string value)
  : completion (gmap string value) :=
  match BadgeInput.match_all BadgeInput.email_regex paste with
  | Some emails =>
      and_then (filter_throwing
                  (fun email => and_then (isInList st email)
                                         (fun listed => Normal (negb listed)))
                  emails) (fun toBeAdded =>
      and_then (read st "emails") (fun current =>
      and_then (spread current) (fun xs =>
      Normal (setState {[ "emails" := VArr (xs ++ map VStr toBeAdded) ]} st))))
  | None => Normal st
  end.

(** What the user does; a handler that throws leaves the state as it
    was. *)
Inductive user_event : Type :=
  | Change (text : string)
  | KeyDown (key : string)
  | Delete (email : string)
  | Paste (text : string).

Definition handle (e : user_event) (st : gmap string value)
  : completion (gmap string value) :=
  match e with
  | Change text => Normal (handleChange text st)
  | KeyDown key => snd (handleKeyDown key st)
  | Delete email => handleDelete email st
  | Paste text => handlePaste text st
  end.

Definition session (events : list user_event) (st : gmap string value)
  : gmap string value :=
  fold_left (fun acc e => match handle e acc with
                          | Normal st' => st'
                          | Throw _ => acc
                          end)
            events st.

End Component.

(** A state with no chips: the list is empty, the typed text is a string,
    and there is no entry called [items]. *)
Definition no_chips (st : gmap string value) : Prop :=
  st !! "items" = None /\ st !! "emails" = Some (VArr []) /\
  exists text, st !! "value" = Some (VStr text).

End EmailChips.

(** * The click counter of the post on passing data to custom elements *)

Module ClickCounter.

(** The element: [_timesClicked], a number, and the details of the
    "clicked" events it has dispatched so far, oldest first. *)
Record Counter : Type := mkCounter {
  _timesClicked : Z;
  dispatched : list Z
}.

(** [this._timesClicked = 0] *)
Definition constructor : Counter := mkCounter 0 [].

(** [x++] on a number: the double nearest to the sum of [x] and 1, which
    is [x] itself once the doubles around [x] are more than 1 apart (and
    when [x] is an infinity). *)
Definition increment (x : Z) : Z :=
  match nearest_double x with
  | Some d => default d (nearest_double (d + 1))
  | None => x
  end.

(** [[
button.onclick = evt => {
  this._timesClicked++
  this.dispatchEvent(new CustomEvent("clicked", { detail: this._timesClicked }))
}
]] *)
Definition onclick (c : Counter) : Counter :=
  let n := increment (_timesClicked c) in
  mkCounter n (dispatched c ++ [n]).

Definition clicks (n : nat) (c : Counter) : Counter := Nat.iter n onclick c.

End ClickCounter.

(** * Properties *)

(** ** [split], [reduce], [forEach] *)

Lemma split_nonempty (sep : ascii) (s : string) : split sep s <> [].
Proof.
  destruct s as [|c s]; simpl; [discriminate|].
  destruct (Ascii.eqb c sep); [discriminate|].
  destruct (split sep s); discriminate.
Qed.

Lemma split_app (sep : ascii) (s1 s2 : string) :
  split sep (s1 ++ String sep s2) = (split sep s1 ++ split sep s2)%list.
Proof.
  induction s1 as [|c s1 IH]; simpl.
  - rewrite Ascii.eqb_refl. reflexivity.
  - destruct (Ascii.eqb c sep); [now rewrite IH|].
    rewrite IH. pose proof (split_nonempty sep s1) as Hne.
    destruct (split sep s1); [contradiction|reflexivity].
Qed.

Lemma reduce_app {A B : Type} (f : B -> A -> completion B) (l1 l2 : list A) (b : B) :
  reduce f (l1 ++ l2)%list b =
  match reduce f l1 b with
  | Normal acc => reduce f l2 acc
  | Throw e => Throw e
  end.
Proof.
  revert b; induction l1 as [|x l1 IH]; intros b; simpl; [reflexivity|].
  destruct (f b x); [apply IH|reflexivity].
Qed.

Section ForEach.

Context {A : Type} (f : A -> completion A).

Lemma forEach_app_complete (pre rest : list A) :
  Forall (fun x => completes (f x) = true) pre ->
  forEach f (pre ++ rest)%list =
  ((map (visited f) pre ++ fst (forEach f rest))%list, snd (forEach f rest)).
Proof.
  induction 1 as [|x pre Hx _ IH]; simpl.
  - now destruct (forEach f rest).
  - unfold visited at 1. destruct (f x) as [x'|e]; [|discriminate Hx].
    rewrite IH. reflexivity.
Qed.

Lemma forEach_complete (l : list A) :
  Forall (fun x => completes (f x) = true) l ->
  forEach f l = (map (visited f) l, Normal tt).
Proof.
  intros H. rewrite <- (app_nil_r l) at 1.
  rewrite forEach_app_complete by assumption. simpl.
  now rewrite app_nil_r.
Qed.

Lemma forEach_stops (x : A) (rest : list A) (e : error) :
  f x = Throw e -> forEach f (x :: rest) = (x :: rest, Throw e).
Proof. intros H; simpl; now rewrite H. Qed.

Lemma forEach_length (l : list A) : length (fst (forEach f l)) = length l.
Proof.
  induction l as [|x l IH]; simpl; [reflexivity|].
  destruct (f x); [|reflexivity].
  destruct (forEach f l); simpl in *; now rewrite IH.
Qed.

End ForEach.

Section ForEachReach.

Context {A : Type} (f : A -> completion A).


(** When the callback throws at position [i], the loop ends there: the
    nodes from [i] on are not visited. *)
Lemma forEach_throw_at (l : list A) (i : nat) (x : A) (err : error) :
  l !! i = Some x ->
  Forall (fun y => completes (f y) = true) (take i l) ->
  f x = Throw err ->
  forEach f l = ((map (visited f) (take i l) ++ drop i l)%list, Throw err).
Proof.
  intros Hi Hpre Hx.
  rewrite <- (take_drop_middle l i x Hi) at 1.
  rewrite forEach_app_complete by assumption. simpl. rewrite Hx. simpl.
  now rewrite (drop_S l x i Hi).
Qed.

(** What the loop leaves at position [i]: the callback's result when no
    callback before it threw, the node as it was otherwise. *)
Lemma forEach_lookup (l : list A) (i : nat) :
  fst (forEach f l) !! i
  = if forallb (fun y => completes (f y)) (take i l)
    then visited f <$> l !! i
    else l !! i.
Proof.
  revert i. induction l as [|x l IH]; intros i; [now destruct i|].
  unfold visited. destruct i as [|i]; simpl.
  - destruct (f x) as [x'|e]; [|reflexivity].
    now destruct (forEach f l).
  - destruct (f x) as [x'|e] eqn:Hx; simpl; [|reflexivity].
    specialize (IH i). destruct (forEach f l) as [rest c]. exact IH.
Qed.

End ForEachReach.

(** ** The callback of [translate] *)

Section Callback.

Context (host : Host) (translation : value).

Lemma translate_element_written (e : Element) (text : value) (markup : string) :
  resolve host (i18n e) translation = Normal text ->
  truthy text = true ->
  ToString host text = Normal markup ->
  translate_element host translation e = Normal (set_innerHTML markup e).
Proof.
  intros Hr Ht Hs. unfold translate_element. now rewrite Hr, Ht, Hs.
Qed.

Lemma translate_element_skipped (e : Element) (text : value) :
  resolve host (i18n e) translation = Normal text ->
  truthy text = false ->
  translate_element host translation e = Normal e.
Proof.
  intros Hr Ht. unfold translate_element. now rewrite Hr, Ht.
Qed.

Lemma translate_element_throws (e : Element) (err : error) :
  resolve host (i18n e) translation = Throw err ->
  translate_element host translation e = Throw err.
Proof.
  intros Hr. unfold translate_element. now rewrite Hr.
Qed.

(** The callback never touches the key. *)
Lemma translate_element_key (e e' : Element) :
  translate_element host translation e = Normal e' -> i18n e' = i18n e.
Proof.
  unfold translate_element.
  destruct (resolve host (i18n e) translation) as [text|]; [|discriminate].
  destruct (truthy text).
  - destruct (ToString host text); [|discriminate].
    intros [= <-]. reflexivity.
  - intros [= <-]. reflexivity.
Qed.


Lemma visited_key (e : Element) :
  i18n (visited (translate_element host translation) e) = i18n e.
Proof.
  unfold visited.
  destruct (translate_element host translation e) eqn:E; [|reflexivity].
  eapply translate_element_key; eassumption.
Qed.

Lemma forEach_keys (els : list Element) :
  map i18n (fst (forEach (translate_element host translation) els)) =
  map i18n els.
Proof.
  induction els as [|e els IH]; simpl; [reflexivity|].
  destruct (translate_element host translation e) as [e'|] eqn:E; [|reflexivity].
  destruct (forEach (translate_element host translation) els) as [rest c].
  simpl in *. rewrite IH. f_equal. eapply translate_element_key; eassumption.
Qed.

(** A walk that reads undefined or null while a segment is still to come
    throws. *)
Lemma resolve_through_nothing (key1 key2 : string) (v : value) :
  resolve host key1 translation = Normal v ->
  v = VUndefined \/ v = VNull ->
  resolve host (key1 ++ String "." key2) translation = Throw TypeError.
Proof.
  unfold resolve. intros Hr Hv. rewrite split_app, reduce_app, Hr.
  pose proof (split_nonempty "." key2) as Hne.
  destruct (split "." key2) as [|k ks]; [contradiction|].
  destruct Hv as [-> | ->]; reflexivity.
Qed.

End Callback.

(** ** What [translate], [load] and the handlers leave alone *)

Section Frame.

Context (host : Host).

Lemma translate_frame (translation : value) (p : Page) :
  let p' := fst (translate host translation p) in
  _lang (this p') = _lang (this p) /\ navigator p' = navigator p /\
  html_lang p' = html_lang p /\ pending p' = pending p /\ trace p' = trace p.
Proof.
  unfold translate.
  destruct (forEach (translate_element host translation) (_elements (this p))).
  simpl. repeat split.
Qed.

Lemma translate_elements (translation : value) (p : Page) :
  _elements (this (fst (translate host translation p))) =
  fst (forEach (translate_element host translation) (_elements (this p))) /\
  snd (translate host translation p) =
  snd (forEach (translate_element host translation) (_elements (this p))).
Proof.
  unfold translate.
  destruct (forEach (translate_element host translation) (_elements (this p))).
  simpl. split; reflexivity.
Qed.

(** The handlers never let an exception out, never write the language
    marker, never change the active language and never touch a key. *)
Lemma on_settle_frame (s : settlement) (p : Page) :
  let p' := fst (on_settle host s p) in
  snd (on_settle host s p) = Normal tt /\
  _lang (this p') = _lang (this p) /\ html_lang p' = html_lang p /\
  pending p' = pending p /\
  map i18n (_elements (this p')) = map i18n (_elements (this p)).
Proof.
  unfold on_settle, catch_, then_, settled, json, console_error.
  destruct s as [|[|translation]]; simpl; [repeat split..|].
  pose proof (translate_frame translation p) as (Hl & _ & Hh & Hp & _).
  pose proof (translate_elements translation p) as [He _].
  destruct (translate host translation p) as [p' [[]|e]]; simpl in *;
    rewrite He, forEach_keys; repeat split; assumption.
Qed.

Lemma settle_frame (i : nat) (s : settlement) (p : Page) :
  let p' := fst (settle host i s p) in
  snd (settle host i s p) = Normal tt /\
  _lang (this p') = _lang (this p) /\ html_lang p' = html_lang p /\
  map i18n (_elements (this p')) = map i18n (_elements (this p)).
Proof.
  unfold settle. destruct (pending p !! i); [|repeat split].
  pose proof (on_settle_frame s (set_pending (delete i (pending p)) p))
    as (Hc & Hl & Hh & _ & Hk).
  repeat split; assumption.
Qed.

End Frame.

(** ** [load] *)

Lemma delete_last {A : Type} (l : list A) (x : A) :
  delete (length l) (l ++ [x])%list = l.
Proof. induction l as [|y l IH]; simpl; [reflexivity|]. now rewrite IH. Qed.

Lemma lang_writes_app (t1 t2 : list event) :
  lang_writes (t1 ++ t2)%list = lang_writes t1 + lang_writes t2.
Proof. unfold lang_writes. now rewrite List.filter_app, length_app. Qed.

(** The language the call of [load] fetches. *)
Lemma load_call (lang : option string) (p : Page) :
  let code := match lang with
              | Some l => if String.eqb l "" then _lang (this p) else l
              | None => _lang (this p)
              end in
  let url := "/i18n/" ++ code ++ ".json" in
  load lang p =
  (mkPage (mkTranslator code (_elements (this p))) (navigator p) (html_lang p)
          (pending p ++ [url])%list (trace p ++ [Fetch url])%list,
   Normal tt).
Proof.
  unfold load, fetch, emit, set_pending, set_lang. simpl.
  destruct lang as [l|]; [|destruct p as [[] ? ? ? ?]; reflexivity].
  destruct (String.eqb l ""); simpl; [destruct p as [[] ? ? ? ?]|]; reflexivity.
Qed.

(** From call to settlement: the handlers run on the page as the call left
    it, the request no longer pending. *)
Lemma load_then_settle_handlers (host : Host) (lang : option string)
      (s : settlement) (p : Page) :
  load_then_settle host lang s p =
  on_settle host s (set_pending (pending p) (fst (load lang p))).
Proof.
  unfold load_then_settle, settle. rewrite load_call. simpl.
  rewrite list_lookup_middle by reflexivity. simpl.
  now rewrite delete_last.
Qed.

(** ** The model on small inputs *)

Example split_examples :
  split "." "header.title" = ["header"; "title"] /\
  split "." "greeting" = ["greeting"] /\
  split "." "" = [""] /\
  split "." "a..b" = ["a"; ""; "b"].
Proof. repeat split. Qed.

Example getLanguage_examples :
  getLanguage (mkNavigator (Some ["de"]) "en-US") = Normal "de" /\
  getLanguage (mkNavigator (Some []) "en-US") = Throw TypeError /\
  getLanguage (mkNavigator None "e") = Normal "e".
Proof. repeat split. Qed.

(** A missing last segment reads as undefined; so does a name read off a
    string. A digit or "length" read off a string finds a character or a
    number, which are truthy and get written. *)
Example resolve_examples (host : Host) :
  resolve host "header.title" en_json = Normal (VStr "Header") /\
  resolve host "greeting.0" en_json = Normal (VStr "H") /\
  resolve host "greeting.length" en_json = Normal (VNum 11) /\
  resolve bare_host "a.c" ab_json = Normal VUndefined /\
  resolve bare_host "greeting.title" en_json = Normal VUndefined /\
  resolve bare_host "greeting.01" en_json = Normal VUndefined /\
  resolve bare_host "a.c.d" ab_json = Throw TypeError.
Proof. repeat split; vm_compute; reflexivity. Qed.

Example ToString_examples (host : Host) :
  ToString host (VStr "Click me!") = Normal "Click me!" /\
  ToString host (VNum 11) = Normal "11" /\
  ToString host en_json = Normal "[object Object]" /\
  ToString host (VArr [VNum 1; VNull; VArr [VNum 2; VNum 3]; VStr "x"])
  = Normal "1,,2,3,x" /\
  ToString host (VObj {[ "toString" := VStr "x" ]}) = Throw TypeError.
Proof. repeat split; vm_compute; reflexivity. Qed.

(** An array of strings converts to its entries joined by commas. *)
Lemma ToString_strings (host : Host) (l : list string) :
  ToString host (VArr (map VStr l)) = Normal (join "," l).
Proof.
  induction l as [|a l IH]; [reflexivity|].
  destruct l as [|b l]; [reflexivity|].
  change (map VStr (a :: b :: l)) with (VStr a :: map VStr (b :: l)).
  simpl in IH |- *. rewrite IH. reflexivity.
Qed.

(** A key whose last segment is missing leaves its element alone and lets
    the loop go on. *)
Example translate_missing_leaf :
  translate bare_host ab_json
            (set_elements [mkElement "a.c" "old"; mkElement "a.b" "-"] sample_page)
  = (set_elements [mkElement "a.c" "old"; mkElement "a.b" "X"] sample_page,
     Normal tt).
Proof. vm_compute. reflexivity. Qed.

(** A key that walks into a string gets a character of it written. *)
Example translate_into_string (host : Host) :
  translate host en_json
            (set_elements [mkElement "greeting.0" "old"] sample_page)
  = (set_elements [mkElement "greeting.0" "H"] sample_page, Normal tt).
Proof. vm_compute. reflexivity. Qed.

(** * The claims *)

(** C5. Language detection takes the first entry of [navigator.languages]
    when the list is available, otherwise [navigator.language], and returns
    its first two characters. The list "en-US", "en", "de-DE" yields "en";
    the single string "fr-FR" with no list yields "fr". *)
Theorem C5_getLanguage_first_entry_or_fallback :
  (forall (first : string) (rest : list string) (single : string),
      getLanguage (mkNavigator (Some (first :: rest)) single)
      = Normal (substr first 0 2)) /\
  (forall single : string,
      getLanguage (mkNavigator None single) = Normal (substr single 0 2)) /\
  (forall (c1 c2 : ascii) (tail : string),
      substr (String c1 (String c2 tail)) 0 2 = String c1 (String c2 "")) /\
  (forall single : string,
      getLanguage (mkNavigator (Some ["en-US"; "en"; "de-DE"]) single)
      = Normal "en") /\
  getLanguage (mkNavigator None "fr-FR") = Normal "fr".
Proof.
  repeat split; intros; try reflexivity.
  unfold substr. simpl. now destruct tail.
Qed.

(** C8. [toggleLangTag] writes the [lang] attribute of the document root
    only when it differs from the active language: after one call the
    attribute equals the active language, a second call with no language
    change in between changes nothing, and the two calls together write the
    attribute at most once. *)
Theorem C8_toggleLangTag_idempotent (p : Page) :
  let p1 := fst (toggleLangTag p) in
  let p2 := fst (toggleLangTag p1) in
  p2 = p1 /\
  html_lang p1 = _lang (this p1) /\
  _lang (this p1) = _lang (this p) /\
  lang_writes (trace p1) =
    lang_writes (trace p) +
    (if String.eqb (html_lang p) (_lang (this p)) then 0 else 1) /\
  lang_writes (trace p2) <= lang_writes (trace p) + 1.
Proof.
  unfold toggleLangTag.
  destruct (String.eqb (html_lang p) (_lang (this p))) eqn:E; simpl.
  - rewrite E. simpl. apply String.eqb_eq in E.
    repeat split; first [assumption | lia].
  - rewrite String.eqb_refl. simpl. rewrite lang_writes_app.
    change (lang_writes [SetLangAttr (_lang (this p))]) with 1.
    repeat split; lia.
Qed.

(** C7. A language code passed to [load] replaces the active language as it
    stands, before the request is made: it is not cut to two characters and
    [navigator] plays no part. *)
Theorem C7_load_uses_supplied_code_verbatim (code : string) (p : Page) :
  code <> "" ->
  let p' := fst (load (Some code) p) in
  let url := "/i18n/" ++ code ++ ".json" in
  _lang (this p') = code /\
  pending p' = (pending p ++ [url])%list /\
  (forall nav : Navigator,
      _lang (this (fst (load (Some code)
                             (mkPage (this p) nav (html_lang p) (pending p)
                                     (trace p))))) = code).
Proof.
  intros Hne. apply String.eqb_neq in Hne.
  repeat split; intros; rewrite load_call; simpl; now rewrite Hne.
Qed.

Lemma C7_load_uses_supplied_code_verbatim_witness :
  "en-US" <> "" /\
  getLanguage (navigator sample_page) = Normal "en" /\
  _lang (this (fst (load (Some "en-US") sample_page))) = "en-US" /\
  pending (fst (load (Some "en-US") sample_page)) = ["/i18n/en-US.json"].
Proof.
  split; [discriminate|]. split; [reflexivity|].
  pose proof (C7_load_uses_supplied_code_verbatim "en-US" sample_page) as H.
  destruct H as (Hl & Hp & _); [discriminate|].
  split; [exact Hl|exact Hp].
Defined.

(** C1, as the code has it. When the request of [load] delivers a
    translation document, [translate] runs with that document, and the
    [lang] attribute of the document root stays what it was: [load] and its
    handlers never call [toggleLangTag]. After [load("de")] on a page
    marked "en" the active language is "de" and the marker still "en". *)
Theorem C1_load_translates_but_leaves_marker
        (host : Host) (lang : option string) (translation : value) (p : Page) :
  let p' := fst (load_then_settle host lang (Fulfilled (Json translation)) p) in
  _elements (this p') =
    fst (forEach (translate_element host translation) (_elements (this p))) /\
  html_lang p' = html_lang p /\
  lang_writes (trace p') = lang_writes (trace p) /\
  html_lang (fst (load_then_settle host (Some "de") (Fulfilled (Json de_json))
                                   sample_page)) = "en" /\
  _lang (this (fst (load_then_settle host (Some "de") (Fulfilled (Json de_json))
                                     sample_page))) = "de".
Proof.
  assert (G : forall lang translation p,
             let p' := fst (load_then_settle host lang
                                             (Fulfilled (Json translation)) p) in
             _elements (this p') =
               fst (forEach (translate_element host translation)
                            (_elements (this p))) /\
             html_lang p' = html_lang p /\
             lang_writes (trace p') = lang_writes (trace p) /\
             _lang (this p') = _lang (this (fst (load lang p)))).
  { clear. intros lang translation p. simpl.
    rewrite load_then_settle_handlers, load_call. simpl.
    unfold on_settle, catch_, then_, settled, json, translate, console_error.
    simpl.
    destruct (forEach (translate_element host translation) (_elements (this p)))
      as [els [[]|e]]; simpl;
      rewrite ?lang_writes_app; unfold lang_writes; simpl;
      repeat split; try lia;
      (destruct lang as [l|]; [destruct (String.eqb l "")|]; reflexivity). }
  simpl. destruct (G lang translation p) as (He & Hh & Hw & _).
  destruct (G (Some "de") de_json sample_page) as (_ & Hh' & _ & Hl').
  repeat split; assumption.
Qed.

(** C3. When the request of [load] fails (fetch rejected, or a body that is
    not JSON), the failure is logged and nothing else happens: neither the
    call nor the handlers throw, every element is as before the call, the
    language marker is untouched, and the active language stays the code
    that was fetched. *)
Theorem C3_failed_retrieval_only_logs
        (host : Host) (lang : option string) (s : settlement) (p : Page) :
  retrieval_failed s = true ->
  let p' := fst (load_then_settle host lang s p) in
  let code := match lang with
              | Some l => if String.eqb l "" then _lang (this p) else l
              | None => _lang (this p)
              end in
  let url := "/i18n/" ++ code ++ ".json" in
  let msg := "Could not load " ++ code ++ ".json." in
  snd (load lang p) = Normal tt /\
  snd (load_then_settle host lang s p) = Normal tt /\
  _elements (this p') = _elements (this p) /\
  _lang (this p') = code /\
  html_lang p' = html_lang p /\
  pending p' = pending p /\
  trace p' = (trace p ++ [Fetch url; ConsoleError msg])%list.
Proof.
  intros Hs. simpl. rewrite load_then_settle_handlers, load_call. simpl.
  unfold on_settle, catch_, then_, settled, json, console_error, emit.
  destruct s as [|[|translation]]; [| |discriminate Hs]; simpl;
    rewrite <- app_assoc; repeat split.
Qed.

Lemma C3_failed_retrieval_only_logs_witness :
  retrieval_failed Rejected = true /\
  _elements (this (fst (load_then_settle bare_host (Some "de") Rejected sample_page)))
  = sample_elements /\
  _lang (this (fst (load_then_settle bare_host (Some "de") Rejected sample_page)))
  = "de" /\
  trace (fst (load_then_settle bare_host (Some "de") Rejected sample_page))
  = [Fetch "/i18n/de.json"; ConsoleError "Could not load de.json."].
Proof.
  split; [reflexivity|].
  pose proof (C3_failed_retrieval_only_logs bare_host (Some "de") Rejected
                                            sample_page eq_refl) as H.
  destruct H as (_ & _ & He & Hl & _ & _ & Ht).
  split; [exact He|]. split; [exact Hl|exact Ht].
Defined.

(** C4, as the code has it. The callback of [translate] assigns a
    non-empty string that the key path resolves to, as it is, and in the
    examples of the claim every element ends up with its string: in the
    document with a.b = "X" the path "a.b" resolves to "X", and with the
    document of the end-to-end example the elements keyed "greeting",
    "header.title" and "header.button" end up with "Hello World", "Header"
    and "Click me!". But [translate] shows the string on the page only when
    the loop reaches the element: once a callback has thrown, an element
    further down keeps its content although its key path resolves to a
    string. *)
Theorem C4_string_leaf_written_unless_loop_aborted (host : Host) :
  (forall (translation : value) (e : Element) (s : string),
      resolve host (i18n e) translation = Normal (VStr s) ->
      s <> "" ->
      translate_element host translation e = Normal (mkElement (i18n e) s)) /\
  (forall (translation : value) (p : Page) (i : nat) (e : Element) (s : string),
      _elements (this p) !! i = Some e ->
      resolve host (i18n e) translation = Normal (VStr s) ->
      s <> "" ->
      _elements (this (fst (translate host translation p))) !! i
      = Some (if forallb (fun x => completes (translate_element host translation x))
                         (take i (_elements (this p)))
              then mkElement (i18n e) s
              else e)) /\
  resolve host "a.b" ab_json = Normal (VStr "X") /\
  translate host en_json sample_page
  = (set_elements [ mkElement "greeting" "Hello World";
                    mkElement "header.title" "Header";
                    mkElement "header.button" "Click me!" ] sample_page,
     Normal tt).
Proof.
  assert (Hcb : forall translation e s,
             resolve host (i18n e) translation = Normal (VStr s) ->
             s <> "" ->
             translate_element host translation e = Normal (mkElement (i18n e) s)).
  { intros translation e s Hr Hs.
    apply (translate_element_written host translation e (VStr s) s);
      [assumption| |reflexivity].
    simpl. apply String.eqb_neq in Hs. now rewrite Hs. }
  split; [exact Hcb|]. split; [|split; vm_compute; reflexivity].
  intros translation p i e s Hi Hr Hs.
  destruct (translate_elements host translation p) as [-> _].
  rewrite forEach_lookup, Hi. unfold visited. simpl.
  rewrite (Hcb translation e s Hr Hs).
  now destruct (forallb _ _).
Qed.

(** The element keyed "greeting" stands behind one keyed "x.y", whose walk
    throws: it keeps "old2" although "greeting" resolves to
    "Hello World". *)
Lemma C4_string_leaf_written_unless_loop_aborted_witness :
  resolve bare_host "greeting" en_json = Normal (VStr "Hello World") /\
  "Hello World" <> "" /\
  translate_element bare_host en_json (mkElement "x.y" "old1") = Throw TypeError /\
  _elements (this (fst (translate bare_host en_json
                          (set_elements [ mkElement "x.y" "old1";
                                          mkElement "greeting" "old2" ]
                                        sample_page)))) !! 1%nat
  = Some (mkElement "greeting" "old2").
Proof.
  split; [reflexivity|]. split; [discriminate|]. split; [reflexivity|].
  apply (proj1 (proj2 (C4_string_leaf_written_unless_loop_aborted bare_host))
               en_json
               (set_elements [ mkElement "x.y" "old1"; mkElement "greeting" "old2" ]
                             sample_page)
               1%nat (mkElement "greeting" "old2") "Hello World").
  - reflexivity.
  - reflexivity.
  - discriminate.
Defined.

(** C10, amended. The assignment is guarded by the truthiness of the
    resolved value and by nothing else, so an element whose key path
    resolves to a truthy value that is not a string (the path "header",
    which stops at a nested mapping) is overwritten all the same, with the
    string the value converts to: "[object Object]" for a mapping, "true",
    the digits of a number, the joined entries of an array (nothing at all
    for an empty one). This holds when the conversion gives a string and,
    in [translate], when the loop reaches the element; a mapping with an
    entry of its own named toString does not convert, and the assignment
    then throws and writes nothing. *)
Theorem C10_truthy_value_is_written_converted (host : Host) :
  (forall (translation : value) (e : Element) (text : value),
      resolve host (i18n e) translation = Normal text ->
      truthy text = true ->
      translate_element host translation e
      = match ToString host text with
        | Normal markup => Normal (mkElement (i18n e) markup)
        | Throw err => Throw err
        end) /\
  (forall (translation : value) (p : Page) (i : nat) (e : Element) (text : value),
      _elements (this p) !! i = Some e ->
      Forall (fun x => completes (translate_element host translation x) = true)
             (take i (_elements (this p))) ->
      resolve host (i18n e) translation = Normal text ->
      truthy text = true ->
      _elements (this (fst (translate host translation p))) !! i
      = Some (match ToString host text with
              | Normal markup => mkElement (i18n e) markup
              | Throw _ => e
              end)) /\
  (forall fs : gmap string value,
      truthy (VObj fs) = true /\
      ToString host (VObj fs)
      = match fs !! "toString" with
        | Some _ => Throw TypeError
        | None => Normal "[object Object]"
        end) /\
  (truthy (VBool true) = true /\ ToString host (VBool true) = Normal "true") /\
  (forall n : Z,
      truthy (VNum n) = negb (n =? 0)%Z /\
      ((- 2 ^ 53 < n < 2 ^ 53)%Z -> ToString host (VNum n) = Normal (pretty n))) /\
  (ToString host (VNum 11) = Normal "11" /\
   ToString host (VNum (-5)) = Normal "-5" /\
   ToString host (VNum (2 ^ 60)) = Normal "1152921504606847000" /\
   ToString host (VNum (10 ^ 21)) = Normal "1e+21") /\
  (forall xs : list value, truthy (VArr xs) = true) /\
  (forall l : list string,
      ToString host (VArr (map VStr l)) = Normal (join "," l)) /\
  (ToString host (VArr []) = Normal "" /\
   ToString host (VArr [VStr "a"; VNull; VNum 2; VArr [VBool true; VStr "b"]])
   = Normal "a,,2,true,b") /\
  (forall content : string,
      translate host en_json
                (set_elements [mkElement "header" content] sample_page)
      = (set_elements [mkElement "header" "[object Object]"] sample_page,
         Normal tt)).
Proof.
  assert (Hcb : forall translation e text,
             resolve host (i18n e) translation = Normal text ->
             truthy text = true ->
             translate_element host translation e
             = match ToString host text with
               | Normal markup => Normal (mkElement (i18n e) markup)
               | Throw err => Throw err
               end).
  { intros translation e text Hr Ht. unfold translate_element.
    rewrite Hr, Ht. reflexivity. }
  split; [exact Hcb|]. split; [|split; [|split; [|split]]].
  - intros translation p i e text Hi Hpre Hr Ht.
    destruct (translate_elements host translation p) as [-> _].
    rewrite forEach_lookup, Hi.
    assert (Hall : forallb (fun x => completes (translate_element host translation x))
                           (take i (_elements (this p))) = true).
    { induction Hpre as [|x l Hx _ IH]; simpl; [reflexivity|now rewrite Hx]. }
    rewrite Hall. unfold visited. simpl.
    rewrite (Hcb translation e text Hr Ht).
    now destruct (ToString host text).
  - intros fs. split; reflexivity.
  - split; reflexivity.
  - intros n. split; [reflexivity|]. intros Hn. simpl. unfold Number_toString.
    replace (Z.abs n <? 2 ^ 53)%Z with true; [reflexivity|].
    symmetry. apply Z.ltb_lt. lia.
  - split; [repeat split; vm_compute; reflexivity|].
    split; [reflexivity|]. split; [apply ToString_strings|].
    repeat split; intros; vm_compute; reflexivity.
Qed.

Lemma C10_truthy_value_is_written_converted_witness :
  resolve bare_host "header" en_json
  = Normal (VObj {[ "title" := VStr "Header"; "button" := VStr "Click me!" ]}) /\
  _elements (this (fst (translate bare_host en_json
                                  (set_elements [mkElement "header" "-"]
                                                sample_page)))) !! 0%nat
  = Some (mkElement "header" "[object Object]").
Proof.
  split; [reflexivity|].
  exact (proj1 (proj2 (C10_truthy_value_is_written_converted bare_host)) en_json
               (set_elements [mkElement "header" "-"] sample_page) 0%nat
               (mkElement "header" "-")
               (VObj {[ "title" := VStr "Header"; "button" := VStr "Click me!" ]})
               eq_refl (List.Forall_nil _) eq_refl eq_refl).
Defined.

(** The claim as it stands fails on a mapping that has an entry named
    toString: the key "o" resolves to it, it is truthy and not a string,
    and the element is not overwritten; the assignment throws. *)
Lemma C10_own_toString_is_not_written :
  resolve bare_host "o" (VObj {[ "o" := VObj {[ "toString" := VStr "x" ]} ]})
  = Normal (VObj {[ "toString" := VStr "x" ]}) /\
  truthy (VObj {[ "toString" := VStr "x" ]}) = true /\
  translate bare_host (VObj {[ "o" := VObj {[ "toString" := VStr "x" ]} ]})
            (set_elements [mkElement "o" "old"] sample_page)
  = (set_elements [mkElement "o" "old"] sample_page, Throw TypeError).
Proof. repeat split; vm_compute; reflexivity. Qed.

(** C2, as the code has it. A key path whose walk reads undefined or null
    while a segment is still to come (the branch is missing and the path
    goes on) makes [obj[i]] throw inside [translate]: the element keeps its
    content, but [translate] ends with a TypeError, which the handler of
    [load] reports as a failed load. *)
Theorem C2_missing_branch_throws
        (host : Host) (translation : value) (p : Page) (i : nat)
        (key1 key2 content : string) (v : value) :
  _elements (this p) !! i = Some (mkElement (key1 ++ String "." key2) content) ->
  Forall (fun x => completes (translate_element host translation x) = true)
         (take i (_elements (this p))) ->
  resolve host key1 translation = Normal v ->
  v = VUndefined \/ v = VNull ->
  snd (translate host translation p) = Throw TypeError /\
  _elements (this (fst (translate host translation p))) !! i
  = Some (mkElement (key1 ++ String "." key2) content) /\
  trace (fst (on_settle host (Fulfilled (Json translation)) p))
  = (trace p ++ [ConsoleError ("Could not load " ++ _lang (this p) ++ ".json.")])%list.
Proof.
  intros Hi Hpre Hr Hv.
  pose proof (resolve_through_nothing host translation key1 key2 v Hr Hv) as Hw.
  pose proof (translate_element_throws host translation
                (mkElement (key1 ++ String "." key2) content) TypeError Hw) as Ht.
  pose proof (forEach_throw_at _ _ i _ TypeError Hi Hpre Ht) as Hf.
  pose proof (translate_frame host translation p) as (Hl & _ & _ & _ & Htr).
  destruct (translate_elements host translation p) as [He Hc].
  assert (Hthrow : snd (translate host translation p) = Throw TypeError).
  { now rewrite Hc, Hf. }
  split; [exact Hthrow|]. split.
  - rewrite He, Hf. simpl.
    rewrite lookup_app_r by (rewrite length_map, length_take; lia).
    rewrite length_map, length_take.
    apply lookup_lt_Some in Hi as Hlt.
    replace (i - i `min` length (_elements (this p))) with 0 by lia.
    rewrite lookup_drop. now rewrite Nat.add_0_r.
  - unfold on_settle, catch_, then_, settled, json, console_error. simpl.
    destruct (translate host translation p) as [p' c]. simpl in *.
    subst c. rewrite Hf. simpl. now rewrite Hl, Htr.
Qed.

Lemma C2_missing_branch_throws_witness :
  resolve bare_host "c" ab_json = Normal VUndefined /\
  snd (translate bare_host ab_json
                 (set_elements [mkElement "c.d" "old"] sample_page))
  = Throw TypeError.
Proof.
  split; [reflexivity|].
  apply (C2_missing_branch_throws bare_host ab_json
           (set_elements [mkElement "c.d" "old"] sample_page) 0%nat
           "c" "d" "old" VUndefined).
  - reflexivity.
  - constructor.
  - reflexivity.
  - left. reflexivity.
Defined.

(** C6, as the code has it. The callback that throws ends the loop: the
    elements after it are not visited and keep their content, also those
    whose key path resolves. *)
Theorem C6_throw_stops_the_loop
        (host : Host) (translation : value) (p : Page) (i : nat)
        (e : Element) (err : error) :
  _elements (this p) !! i = Some e ->
  Forall (fun x => completes (translate_element host translation x) = true)
         (take i (_elements (this p))) ->
  translate_element host translation e = Throw err ->
  snd (translate host translation p) = Throw err /\
  drop i (_elements (this (fst (translate host translation p))))
  = drop i (_elements (this p)).
Proof.
  intros Hi Hpre Ht.
  pose proof (forEach_throw_at _ _ i _ err Hi Hpre Ht) as Hf.
  destruct (translate_elements host translation p) as [He Hc].
  split; [now rewrite Hc, Hf|].
  rewrite He, Hf. simpl.
  apply lookup_lt_Some in Hi as Hlt.
  rewrite drop_app_length'; [reflexivity|].
  rewrite length_map, length_take. lia.
Qed.

Lemma C6_throw_stops_the_loop_witness :
  resolve bare_host "greeting" en_json = Normal (VStr "Hello World") /\
  translate bare_host en_json
            (set_elements [mkElement "x.y" "old1"; mkElement "greeting" "old2"]
                          sample_page)
  = (set_elements [mkElement "x.y" "old1"; mkElement "greeting" "old2"]
                  sample_page,
     Throw TypeError) /\
  drop 0 (_elements (this (fst (translate bare_host en_json
            (set_elements [mkElement "x.y" "old1"; mkElement "greeting" "old2"]
                          sample_page)))))
  = drop 0 [mkElement "x.y" "old1"; mkElement "greeting" "old2"].
Proof.
  split; [reflexivity|]. split; [reflexivity|].
  apply (C6_throw_stops_the_loop bare_host en_json
           (set_elements [mkElement "x.y" "old1"; mkElement "greeting" "old2"]
                         sample_page)
           0%nat (mkElement "x.y" "old1") TypeError).
  - reflexivity.
  - constructor.
  - reflexivity.
Defined.

(** ** Overlapping calls of [load] *)

Section Overlap.

Context (host : Host).






End Overlap.




(** * Further properties of the Translator *)

(** ** Key paths *)

Lemma split_dot_free (s : string) : dot_free s = true -> split "." s = [s].
Proof.
  induction s as [|c s IH]; simpl; [reflexivity|].
  destruct (Ascii.eqb c "."); simpl; [discriminate|].
  intros H. now rewrite (IH H).
Qed.

(** X1. [split(".")] loses nothing: a key with n dots gives n + 1 segments,
    none of which contains a dot, and joining them with dots gives the key
    back. *)
Theorem split_join_round_trip (key : string) :
  join "." (split "." key) = key /\
  length (split "." key) = S (count_dots key) /\
  Forall (fun seg => dot_free seg = true) (split "." key).
Proof.
  induction key as [|c key (IHj & IHl & IHf)]; simpl.
  - repeat split. repeat constructor.
  - destruct (Ascii.eqb c ".") eqn:E.
    + apply Ascii.eqb_eq in E. subst c. simpl. rewrite IHl.
      repeat split; [|constructor; [reflexivity|assumption]].
      pose proof (split_nonempty "." key) as Hne.
      destruct (split "." key) as [|seg segs]; [contradiction|].
      simpl in *. now rewrite IHj.
    + pose proof (split_nonempty "." key) as Hne.
      destruct (split "." key) as [|seg segs]; [contradiction|].
      simpl in *. apply Forall_cons in IHf as [Hseg Hsegs].
      repeat split.
      * destruct segs; simpl in *; now rewrite <- IHj.
      * assumption.
      * constructor; [|assumption]. simpl. now rewrite E, Hseg.
Qed.

(** X2. A path is walked segment by segment: resolving "k1.k2" is resolving
    k1 and then resolving k2 in what was found, and a throw on the way is
    the throw of the whole walk. *)
Theorem resolve_dot_composes (host : Host) (key1 key2 : string) (translation : value) :
  resolve host (key1 ++ "." ++ key2) translation =
  match resolve host key1 translation with
  | Normal found => resolve host key2 found
  | Throw e => Throw e
  end.
Proof.
  unfold resolve. change ("." ++ key2) with (String "." key2).
  now rewrite split_app, reduce_app.
Qed.

(** X3. What is stored under a segment is found under it: a dot-free key finds
    the entry of that name, and a two-segment path finds the entry of the
    nested mapping, whatever else the documents hold and whatever the
    prototypes hold. *)
Theorem resolve_finds_stored_entry
        (host : Host) (key1 key2 : string) (v : value)
        (outer inner : gmap string value) :
  dot_free key1 = true ->
  dot_free key2 = true ->
  resolve host key1 (VObj (<[key1 := v]> outer)) = Normal v /\
  resolve host (key1 ++ "." ++ key2)
          (VObj (<[key1 := VObj (<[key2 := v]> inner)]> outer)) = Normal v.
Proof.
  intros H1 H2.
  assert (Hone : forall k x fs, dot_free k = true ->
                   resolve host k (VObj (<[k := x]> fs)) = Normal x).
  { intros k x fs Hk. unfold resolve. rewrite (split_dot_free k Hk). simpl.
    now rewrite lookup_insert_eq. }
  split; [now apply Hone|].
  unfold resolve. change ("." ++ key2) with (String "." key2).
  rewrite split_app, reduce_app.
  fold (resolve host key1 (VObj (<[key1 := VObj (<[key2 := v]> inner)]> outer))).
  rewrite (Hone key1 _ outer H1). now apply Hone.
Qed.

Lemma resolve_finds_stored_entry_witness :
  dot_free "header" = true /\ dot_free "title" = true /\
  resolve bare_host "header.title"
          (VObj (<["header" := VObj (<["title" := VStr "Header"]> ∅)]> ∅))
  = Normal (VStr "Header").
Proof.
  split; [reflexivity|]. split; [reflexivity|].
  exact (proj2 (resolve_finds_stored_entry bare_host "header" "title"
                  (VStr "Header") ∅ ∅ eq_refl eq_refl)).
Defined.

(** ** [translate] as a whole *)

Lemma set_elements_same (p : Page) : set_elements (_elements (this p)) p = p.
Proof. destruct p as [[] ? ? ? ?]. reflexivity. Qed.

Lemma set_elements_twice (l1 l2 : list Element) (p : Page) :
  set_elements l1 (set_elements l2 p) = set_elements l1 p.
Proof. reflexivity. Qed.

Lemma translate_page (host : Host) (translation : value) (p : Page) :
  translate host translation p =
  (set_elements (fst (forEach (translate_element host translation)
                              (_elements (this p)))) p,
   snd (forEach (translate_element host translation) (_elements (this p)))).
Proof.
  unfold translate.
  now destruct (forEach (translate_element host translation) (_elements (this p))).
Qed.

Section CallbackTwice.

Context (host : Host) (translation : value).

(** What the callback wrote, it writes again. *)
Lemma translate_element_again (e e' : Element) :
  translate_element host translation e = Normal e' ->
  translate_element host translation e' = Normal e'.
Proof.
  unfold translate_element.
  destruct (resolve host (i18n e) translation) as [text|] eqn:Hr; [|discriminate].
  destruct (truthy text) eqn:Ht.
  - destruct (ToString host text) as [markup|] eqn:Hs; [|discriminate].
    intros [= <-]. simpl. now rewrite Hr, Ht, Hs.
  - intros [= <-]. now rewrite Hr, Ht.
Qed.

Lemma forEach_again (l : list Element) :
  forEach (translate_element host translation)
          (fst (forEach (translate_element host translation) l))
  = forEach (translate_element host translation) l.
Proof.
  induction l as [|x l IH]; simpl; [reflexivity|].
  destruct (translate_element host translation x) as [x'|err] eqn:E.
  - destruct (forEach (translate_element host translation) l) as [rest c].
    cbn [fst forEach] in *.
    now rewrite (translate_element_again x x' E), IH.
  - simpl. now rewrite E.
Qed.

(** What a fully resolved key writes does not depend on what the element
    showed. *)
Lemma forEach_by_keys (l1 l2 : list Element) :
  map i18n l1 = map i18n l2 ->
  Forall (fun e => fully_resolves host translation (i18n e) = true) l2 ->
  forEach (translate_element host translation) l1
  = forEach (translate_element host translation) l2.
Proof.
  revert l2; induction l1 as [|x l1 IH]; intros [|y l2] Hk Hall;
    try discriminate; [reflexivity|].
  injection Hk as Hxy Hk. apply Forall_cons in Hall as [Hy Hall].
  simpl. rewrite (IH l2 Hk Hall).
  unfold fully_resolves in Hy. unfold translate_element. rewrite Hxy.
  destruct (resolve host (i18n y) translation) as [text|]; [|discriminate].
  destruct (truthy text); [|discriminate].
  destruct (ToString host text) as [markup|]; [|discriminate].
  unfold set_innerHTML. now rewrite Hxy.
Qed.

Lemma forEach_skips (l : list Element) :
  Forall (fun e => resolves_falsy host translation (i18n e) = true) l ->
  forEach (translate_element host translation) l = (l, Normal tt).
Proof.
  induction 1 as [|x l Hx _ IH]; simpl; [reflexivity|].
  rewrite IH. unfold resolves_falsy in Hx. unfold translate_element.
  destruct (resolve host (i18n x) translation) as [text|]; [|discriminate].
  now destruct (truthy text).
Qed.

End CallbackTwice.

(** X4. [translate] writes element content and nothing else: it neither adds,
    removes nor reorders elements, never touches a key, and leaves the
    active language, the language marker, the pending requests and the log
    as they were, whether it completes or throws. *)
Theorem translate_writes_content_only (host : Host) (translation : value) (p : Page) :
  let p' := fst (translate host translation p) in
  map i18n (_elements (this p')) = map i18n (_elements (this p)) /\
  length (_elements (this p')) = length (_elements (this p)) /\
  _lang (this p') = _lang (this p) /\
  navigator p' = navigator p /\
  html_lang p' = html_lang p /\
  pending p' = pending p /\
  trace p' = trace p.
Proof.
  cbv zeta. rewrite translate_page. simpl.
  rewrite forEach_keys, forEach_length. repeat split.
Qed.

(** X5. Applying the same document a second time changes nothing and ends the
    same way, a throw included. *)
Theorem translate_idempotent (host : Host) (translation : value) (p : Page) :
  translate host translation (fst (translate host translation p))
  = translate host translation p.
Proof.
  rewrite !translate_page. simpl. now rewrite forEach_again.
Qed.

(** X6. A document in which every key of the snapshot resolves to a falsy
    value (a missing last segment, an empty string, 0, false, null) leaves
    the page exactly as it was, and [translate] completes: an empty
    translation never blanks an element. *)
Theorem translate_falsy_leaves_is_noop (host : Host) (translation : value) (p : Page) :
  Forall (fun e => resolves_falsy host translation (i18n e) = true)
         (_elements (this p)) ->
  translate host translation p = (p, Normal tt).
Proof.
  intros H. rewrite translate_page, (forEach_skips host translation _ H). simpl.
  now rewrite set_elements_same.
Qed.

Lemma translate_falsy_leaves_is_noop_witness :
  forallb (fun e => resolves_falsy bare_host
                      (VObj {[ "greeting" := VStr ""; "header" := VObj ∅ ]})
                      (i18n e)) sample_elements = true /\
  translate bare_host (VObj {[ "greeting" := VStr ""; "header" := VObj ∅ ]})
            sample_page
  = (sample_page, Normal tt).
Proof.
  split; [reflexivity|].
  apply (translate_falsy_leaves_is_noop bare_host
           (VObj {[ "greeting" := VStr ""; "header" := VObj ∅ ]}) sample_page).
  repeat constructor.
Defined.

(** X7. Switching language replaces the earlier texts completely: when the new
    document resolves every key of the snapshot, the page after it is the
    same whatever document was applied before, and whether that one
    completed or threw. *)
Theorem translate_overwrites_previous
        (host : Host) (previous translation : value) (p : Page) :
  Forall (fun e => fully_resolves host translation (i18n e) = true)
         (_elements (this p)) ->
  translate host translation (fst (translate host previous p))
  = translate host translation p /\
  snd (translate host translation p) = Normal tt.
Proof.
  intros H. rewrite !translate_page. simpl.
  rewrite (forEach_by_keys host translation
             (fst (forEach (translate_element host previous) (_elements (this p))))
             (_elements (this p)) (forEach_keys host previous _) H).
  split; [reflexivity|].
  rewrite forEach_complete; [reflexivity|].
  eapply Forall_impl; [exact H|]. intros e He. simpl in He.
  unfold fully_resolves in He. unfold translate_element.
  destruct (resolve host (i18n e) translation) as [text|]; [|discriminate].
  destruct (truthy text); [|discriminate].
  now destruct (ToString host text).
Qed.

Lemma translate_overwrites_previous_witness :
  forallb (fun e => fully_resolves bare_host es_json (i18n e)) sample_elements
  = true /\
  _elements (this (fst (translate bare_host es_json
                                  (fst (translate bare_host de_json sample_page)))))
  = [ mkElement "greeting" "Hola Mundo";
      mkElement "header.title" "Cabecera";
      mkElement "header.button" "Haz clic" ].
Proof.
  split; [reflexivity|].
  assert (H : Forall (fun e => fully_resolves bare_host es_json (i18n e) = true)
                     (_elements (this sample_page))) by (repeat constructor).
  rewrite (proj1 (translate_overwrites_previous bare_host de_json es_json
                    sample_page H)).
  reflexivity.
Defined.

(** X8. A body that is JSON but no mapping at all, null: the first callback
    throws on its first segment, so with a non-empty snapshot nothing is
    written and the handler of [load] reports a failed load. *)
Theorem translate_null_document (host : Host) (p : Page) :
  _elements (this p) <> [] ->
  translate host VNull p = (p, Throw TypeError) /\
  on_settle host (Fulfilled (Json VNull)) p
  = (emit (ConsoleError ("Could not load " ++ _lang (this p) ++ ".json.")) p,
     Normal tt).
Proof.
  intros Hne.
  assert (Ht : translate host VNull p = (p, Throw TypeError)).
  { rewrite translate_page.
    destruct (_elements (this p)) as [|e els] eqn:E; [contradiction|].
    assert (Hthrow : translate_element host VNull e = Throw TypeError).
    { unfold translate_element, resolve.
      pose proof (split_nonempty "." (i18n e)) as Hs.
      destruct (split "." (i18n e)); [contradiction|reflexivity]. }
    rewrite (forEach_stops _ e els TypeError Hthrow). simpl.
    rewrite <- E. now rewrite set_elements_same. }
  split; [exact Ht|].
  unfold on_settle, catch_, then_, settled, json, console_error. simpl.
  now rewrite Ht.
Qed.

Lemma translate_null_document_witness :
  _elements (this sample_page) <> [] /\
  load_then_settle bare_host None (Fulfilled (Json VNull)) sample_page
  = (mkPage (this sample_page) (navigator sample_page) "en" []
            [Fetch "/i18n/en.json"; ConsoleError "Could not load en.json."],
     Normal tt) /\
  translate bare_host VNull sample_page = (sample_page, Throw TypeError).
Proof.
  split; [discriminate|]. split; [reflexivity|].
  apply (translate_null_document bare_host sample_page). discriminate.
Defined.

(** ** The constructor and the first [load] *)

Lemma substring_prefix (n : nat) (s : string) :
  String.length (String.substring 0 n s) = Nat.min n (String.length s) /\
  exists rest, s = String.substring 0 n s ++ rest.
Proof.
  revert s; induction n as [|n IH]; intros s.
  - split; [now destruct s|]. exists s. now destruct s.
  - destruct s as [|c s]; simpl; [split; [reflexivity|now exists ""]|].
    destruct (IH s) as [Hl [rest Hr]]. split; [now rewrite Hl|].
    exists rest. change (String c s = String c (String.substring 0 n s ++ rest)).
    now rewrite <- Hr.
Qed.

(** X9. [new Translator()] fails in exactly one case, a [navigator.languages]
    that is an empty array (the fallback string is not consulted then).
    Otherwise the snapshot is the tagged elements as found, and the active
    language is the beginning of the first listed tag, or of
    [navigator.language] when there is no list: two characters, or the
    whole tag when it is shorter. *)
Theorem constructor_outcome (nav : Navigator) (tagged : list Element) :
  let tag := match languages nav with
             | Some (first :: _) => first
             | _ => language nav
             end in
  match constructor nav tagged with
  | Throw e => e = TypeError /\ languages nav = Some []
  | Normal t =>
      languages nav <> Some [] /\
      _elements t = tagged /\
      String.length (_lang t) = Nat.min 2 (String.length tag) /\
      exists rest, tag = _lang t ++ rest
  end.
Proof.
  unfold constructor, getLanguage, substr.
  destruct nav as [[[|first others]|] single]; simpl.
  - split; reflexivity.
  - destruct (substring_prefix 2 first) as [Hl Hr]. repeat split; try assumption.
    discriminate.
  - destruct (substring_prefix 2 single) as [Hl Hr]. repeat split; try assumption.
    discriminate.
Qed.

(** X10. [load()] without a code, with null or with the empty string keeps the
    active language: right after construction it requests the file named
    after what [getLanguage] detected, the two-letter beginning of the
    first preferred tag. *)
Theorem first_load_fetches_detected_language
        (nav : Navigator) (tagged : list Element) (t : Translator)
        (marker : string) :
  constructor nav tagged = Normal t ->
  let tag := match languages nav with
             | Some (first :: _) => first
             | _ => language nav
             end in
  let p' := fst (load None (fresh_page t nav marker)) in
  pending p' = ["/i18n/" ++ substr tag 0 2 ++ ".json"] /\
  _lang (this p') = substr tag 0 2 /\
  _elements (this p') = tagged /\
  load (Some "") (fresh_page t nav marker) = load None (fresh_page t nav marker).
Proof.
  unfold constructor, getLanguage.
  destruct nav as [[[|first others]|] single]; simpl; [discriminate| |];
    intros [= <-]; repeat split.
Qed.

Lemma first_load_fetches_detected_language_witness :
  constructor (mkNavigator (Some ["de-AT"; "en"]) "en-US") sample_elements
  = Normal (mkTranslator "de" sample_elements) /\
  pending (fst (load None (fresh_page (mkTranslator "de" sample_elements)
                                      (mkNavigator (Some ["de-AT"; "en"]) "en-US")
                                      "en")))
  = ["/i18n/de.json"].
Proof.
  split; [reflexivity|].
  exact (proj1 (first_load_fetches_detected_language
                  (mkNavigator (Some ["de-AT"; "en"]) "en-US") sample_elements
                  (mkTranslator "de" sample_elements) "en" eq_refl)).
Defined.

(** ** Runs of the page *)

Section Runs.

Context (host : Host).

Lemma on_settle_log (s : settlement) (p : Page) :
  navigator (fst (on_settle host s p)) = navigator p /\
  (trace (fst (on_settle host s p)) = trace p \/
   trace (fst (on_settle host s p))
   = (trace p ++ [ConsoleError ("Could not load " ++ _lang (this p) ++ ".json.")])%list).
Proof.
  unfold on_settle, catch_, then_, settled, json, console_error.
  destruct s as [|[|translation]]; simpl; try (split; [reflexivity|now right]).
  rewrite translate_page.
  destruct (snd (forEach (translate_element host translation) (_elements (this p))))
    as [[]|e]; simpl; split; try reflexivity; [now left|now right].
Qed.

End Runs.

Lemma run_cons (host : Host) (a : action) (acts : list action) (p : Page) :
  run host (a :: acts) p = run host acts (step host a p).
Proof. reflexivity. Qed.

Lemma lang_writes_log (t : list event) (msg : string) :
  lang_writes (t ++ [ConsoleError msg])%list = lang_writes t.
Proof. rewrite lang_writes_app. unfold lang_writes. simpl. lia. Qed.

Lemma step_frame (host : Host) (a : action) (p : Page) :
  html_lang (step host a p) = html_lang p /\
  navigator (step host a p) = navigator p /\
  map i18n (_elements (this (step host a p))) = map i18n (_elements (this p)) /\
  lang_writes (trace (step host a p)) = lang_writes (trace p) /\
  _lang (this (step host a p)) = requested_language [a] (_lang (this p)).
Proof.
  destruct a as [lang|i s]; cbn [step].
  - rewrite load_call. simpl. rewrite lang_writes_app. unfold lang_writes at 2.
    simpl. repeat split; try lia.
  - unfold settle. destruct (pending p !! i); [|repeat split].
    pose proof (on_settle_frame host s (set_pending (delete i (pending p)) p))
      as (_ & Hl & Hh & _ & Hk).
    pose proof (on_settle_log host s (set_pending (delete i (pending p)) p))
      as (Hn & Ht).
    repeat split; try assumption.
    destruct Ht as [-> | ->]; [reflexivity|apply lang_writes_log].
Qed.

(** X11. However calls of [load] and settlements follow each other, no
    exception reaches the caller of [load] or the event loop, the language
    marker is never written, [navigator] is never changed, and the
    snapshot keeps its elements, in order, under their keys. *)
Theorem run_keeps_marker_and_snapshot (host : Host) (acts : list action) (p : Page) :
  (forall (lang : option string) (q : Page), snd (load lang q) = Normal tt) /\
  (forall (i : nat) (s : settlement) (q : Page),
      snd (settle host i s q) = Normal tt) /\
  html_lang (run host acts p) = html_lang p /\
  lang_writes (trace (run host acts p)) = lang_writes (trace p) /\
  navigator (run host acts p) = navigator p /\
  map i18n (_elements (this (run host acts p))) = map i18n (_elements (this p)).
Proof.
  split; [intros lang q; now rewrite load_call|].
  split; [intros i s q; apply (settle_frame host i s q)|].
  revert p; induction acts as [|a acts IH]; intros p; [repeat split|].
  rewrite run_cons. destruct (IH (step host a p)) as (Hh & Hw & Hn & Hk).
  destruct (step_frame host a p) as (Hh' & Hn' & Hk' & Hw' & _).
  repeat split; congruence.
Qed.

(** X12. The active language after a run is the last non-empty code a call of
    [load] was given, or the language it started with when there was none:
    no settlement, successful or failed, changes or restores it. *)
Theorem run_active_language (host : Host) (acts : list action) (p : Page) :
  _lang (this (run host acts p)) = requested_language acts (_lang (this p)).
Proof.
  revert p; induction acts as [|a acts IH]; intros p; [reflexivity|].
  rewrite run_cons, IH.
  destruct (step_frame host a p) as (_ & _ & _ & _ & ->).
  destruct a as [[code|]|i s]; reflexivity.
Qed.

(** X13. Requests are never merged or reused: calling [load] n times with the
    same code leaves n requests for the same file pending. *)
Theorem repeated_loads_are_not_merged
        (host : Host) (code : string) (n : nat) (p : Page) :
  code <> "" ->
  let url := "/i18n/" ++ code ++ ".json" in
  pending (run host (repeat (Load (Some code)) n) p)
  = (pending p ++ repeat url n)%list.
Proof.
  intros Hne. apply String.eqb_neq in Hne. cbv zeta.
  revert p; induction n as [|n IH]; intros p; simpl repeat.
  - simpl. now rewrite app_nil_r.
  - rewrite run_cons, IH. cbn [step]. rewrite load_call. simpl. rewrite Hne.
    now rewrite <- app_assoc.
Qed.

Lemma repeated_loads_are_not_merged_witness :
  "de" <> "" /\
  pending (run bare_host [Load (Some "de"); Load (Some "de"); Load (Some "de")]
               sample_page)
  = ["/i18n/de.json"; "/i18n/de.json"; "/i18n/de.json"].
Proof.
  split; [discriminate|].
  apply (repeated_loads_are_not_merged bare_host "de" 3 sample_page).
  discriminate.
Defined.

(** X14. The log message reads the active language when the handler runs, not
    the language of the request that failed: when [load] was called again
    in between, the failure of the first request is reported under the
    code of the second. *)
Theorem failure_is_logged_under_latest_code
        (host : Host) (code1 code2 : string) (s : settlement) (p : Page) :
  code1 <> "" ->
  code2 <> "" ->
  pending p = [] ->
  retrieval_failed s = true ->
  let p' := run host [Load (Some code1); Load (Some code2); Settle 0 s] p in
  let url1 := "/i18n/" ++ code1 ++ ".json" in
  let url2 := "/i18n/" ++ code2 ++ ".json" in
  let msg := "Could not load " ++ code2 ++ ".json." in
  trace p' = (trace p ++ [Fetch url1; Fetch url2; ConsoleError msg])%list /\
  pending p' = [url2].
Proof.
  intros H1 H2 Hp Hs. apply String.eqb_neq in H1, H2.
  cbv zeta. unfold run. cbn [fold_left step].
  rewrite (load_call (Some code1) p). cbn [fst].
  rewrite load_call.
  cbn [fst _lang this _elements navigator html_lang pending trace].
  rewrite H1, H2, Hp. cbn [app].
  unfold settle. cbn [pending lookup list_lookup].
  unfold on_settle, catch_, then_, settled, json, console_error, emit.
  destruct s as [|[|translation]]; [| |discriminate Hs]; simpl;
    rewrite <- !app_assoc; split; reflexivity.
Qed.

Lemma failure_is_logged_under_latest_code_witness :
  "de" <> "" /\ "es" <> "" /\ pending sample_page = [] /\
  retrieval_failed Rejected = true /\
  trace (run bare_host [Load (Some "de"); Load (Some "es"); Settle 0 Rejected]
             sample_page)
  = [Fetch "/i18n/de.json"; Fetch "/i18n/es.json";
     ConsoleError "Could not load es.json."].
Proof.
  split; [discriminate|]. split; [discriminate|]. split; [reflexivity|].
  split; [reflexivity|].
  apply (failure_is_logged_under_latest_code bare_host "de" "es" Rejected
           sample_page); [discriminate|discriminate|reflexivity|reflexivity].
Defined.

(** X15. [toggleLangTag] follows the active language, not what is shown:
    called after [load(code)], before or after the request settles and
    however it settles, it sets the language marker to the code and leaves
    the elements alone. After a delivered document they show what
    [translate] made of them; after a failed request they still show the
    earlier texts, under the new marker. *)
Theorem toggleLangTag_after_load
        (host : Host) (code : string) (s : settlement) (p : Page) :
  code <> "" ->
  let called := fst (load (Some code) p) in
  let answered := fst (load_then_settle host (Some code) s p) in
  html_lang (fst (toggleLangTag called)) = code /\
  _elements (this (fst (toggleLangTag called))) = _elements (this p) /\
  html_lang (fst (toggleLangTag answered)) = code /\
  _elements (this (fst (toggleLangTag answered)))
  = match s with
    | Fulfilled (Json translation) =>
        fst (forEach (translate_element host translation) (_elements (this p)))
    | Rejected | Fulfilled NotJson => _elements (this p)
    end.
Proof.
  intros Hne. apply String.eqb_neq in Hne. cbv zeta.
  assert (Ht : forall q, html_lang (fst (toggleLangTag q)) = _lang (this q) /\
                         _elements (this (fst (toggleLangTag q))) = _elements (this q)).
  { intros q. unfold toggleLangTag.
    destruct (String.eqb (html_lang q) (_lang (this q))) eqn:E; simpl;
      [|split; reflexivity].
    apply String.eqb_eq in E. split; [exact E|reflexivity]. }
  split; [|split; [|split]].
  - rewrite (proj1 (Ht _)), load_call. simpl. now rewrite Hne.
  - rewrite (proj2 (Ht _)), load_call. simpl. now destruct (String.eqb code "").
  - rewrite (proj1 (Ht _)), load_then_settle_handlers.
    destruct (on_settle_frame host s (set_pending (pending p) (fst (load (Some code) p))))
      as (_ & -> & _).
    rewrite load_call. simpl. now rewrite Hne.
  - rewrite (proj2 (Ht _)), load_then_settle_handlers, load_call. simpl.
    unfold on_settle, catch_, then_, settled, json, translate, console_error.
    destruct s as [|[|translation]]; try reflexivity. simpl.
    now destruct (forEach (translate_element host translation) (_elements (this p)))
      as [els [[]|e]].
Qed.

Lemma toggleLangTag_after_load_witness :
  "de" <> "" /\
  html_lang (fst (toggleLangTag
                    (fst (load_then_settle bare_host (Some "de")
                                           (Fulfilled NotJson) sample_page))))
  = "de" /\
  _elements (this (fst (toggleLangTag
                          (fst (load_then_settle bare_host (Some "de")
                                                 (Fulfilled NotJson) sample_page)))))
  = sample_elements.
Proof.
  split; [discriminate|].
  destruct (toggleLangTag_after_load bare_host "de" (Fulfilled NotJson) sample_page)
    as (_ & _ & H3 & H4); [discriminate|].
  split; [exact H3|exact H4].
Defined.

(** * Properties of the BadgeInput component *)

Module BadgeInputProperties.

Import BadgeInput.

(** ** Strings *)

Lemma str_cons_app (x : ascii) (a b : string) :
  String x a ++ b = String x (a ++ b).
Proof. reflexivity. Qed.

Lemma str_nil_app (b : string) : "" ++ b = b.
Proof. reflexivity. Qed.

Ltac str_simpl :=
  repeat first [rewrite str_cons_app | rewrite str_nil_app].

Ltac str_simpl_in H :=
  repeat first [rewrite str_cons_app in H | rewrite str_nil_app in H].

Lemma str_app_assoc (a b c : string) : (a ++ b) ++ c = a ++ (b ++ c).
Proof. induction a as [|x a IH]; str_simpl; [reflexivity|now rewrite IH]. Qed.

Lemma str_app_nil_r (a : string) : a ++ "" = a.
Proof. induction a as [|x a IH]; str_simpl; [reflexivity|now rewrite IH]. Qed.

Lemma str_length_app (a b : string) :
  String.length (a ++ b) = String.length a + String.length b.
Proof.
  induction a as [|x a IH]; str_simpl; simpl; [reflexivity|now rewrite IH].
Qed.

Lemma substring_exact (u after : string) :
  String.substring 0 (String.length u) (u ++ after) = u.
Proof.
  induction u as [|c u IH]; str_simpl; simpl; [now destruct after|now rewrite IH].
Qed.

Lemma substring_app_prefix (u after : string) :
  String.substring 0 (String.length (u ++ after) - String.length after) (u ++ after)
  = u.
Proof.
  rewrite str_length_app.
  replace (String.length u + String.length after - String.length after)
    with (String.length u) by lia.
  apply substring_exact.
Qed.

Lemma all_chars_app (class : ascii -> bool) (a b : string) :
  all_chars class (a ++ b) = all_chars class a && all_chars class b.
Proof.
  induction a as [|x a IH]; str_simpl; simpl; [reflexivity|].
  rewrite IH. now destruct (class x).
Qed.

(** ** The matcher against the language *)

Lemma greedy_sound (class : ascii -> bool) (s : string)
      (k : string -> option string) (out : string) :
  greedy class s k = Some out ->
  exists u rest, s = u ++ rest /\ u <> "" /\ all_chars class u = true /\
                 k rest = Some out.
Proof.
  revert out; induction s as [|c s IH]; intros out; simpl; [discriminate|].
  destruct (class c) eqn:Hc; [|discriminate].
  destruct (greedy class s k) as [found|] eqn:G.
  - intros [= <-]. destruct (IH found eq_refl) as (u & rest & -> & _ & Hu & Hk).
    exists (String c u), rest. simpl. rewrite Hc, Hu.
    repeat split; [discriminate|exact Hk].
  - intros Hk. exists (String c ""), s. simpl. rewrite Hc.
    repeat split; [discriminate|exact Hk].
Qed.

Lemma greedy_complete (class : ascii -> bool) (u rest : string)
      (k : string -> option string) :
  u <> "" -> all_chars class u = true -> is_Some (k rest) ->
  is_Some (greedy class (u ++ rest) k).
Proof.
  induction u as [|c u IH]; intros Hne Hall Hk; [contradiction|].
  str_simpl. simpl in *. destruct (class c); [|discriminate]. simpl in Hall.
  destruct u as [|c' u].
  - str_simpl. destruct (greedy class rest k); [eexists; reflexivity|exact Hk].
  - destruct (IH ltac:(discriminate) Hall Hk) as [found ->]. eexists; reflexivity.
Qed.

Lemma exec_sound (r : regex) :
  forall (s : string) (k : string -> option string) (out : string),
    exec r s k = Some out ->
    exists u rest, s = u ++ rest /\ in_language r u /\ k rest = Some out.
Proof.
  induction r as [c|class|r1 IH1 r2 IH2]; intros s k out; simpl.
  - destruct s as [|c' s]; [discriminate|].
    destruct (Ascii.eqb c c') eqn:E; [|discriminate].
    apply Ascii.eqb_eq in E. subst c'. intros Hk.
    exists (String c ""), s. repeat split. exact Hk.
  - intros H. destruct (greedy_sound class s k out H) as (u & rest & -> & Hne & Hu & Hk).
    exists u, rest. repeat split; assumption.
  - intros H. destruct (IH1 s _ out H) as (u1 & rest1 & -> & Hu1 & H2).
    destruct (IH2 rest1 k out H2) as (u2 & rest & -> & Hu2 & Hk).
    exists (u1 ++ u2), rest. rewrite str_app_assoc. repeat split; [|exact Hk].
    exists u1, u2. repeat split; assumption.
Qed.

Lemma exec_complete (r : regex) :
  forall (u rest : string) (k : string -> option string),
    in_language r u -> is_Some (k rest) -> is_Some (exec r (u ++ rest) k).
Proof.
  induction r as [c|class|r1 IH1 r2 IH2]; intros u rest k; simpl.
  - intros -> Hk. str_simpl. now rewrite Ascii.eqb_refl.
  - intros [Hne Hall] Hk. now apply greedy_complete.
  - intros (u1 & u2 & -> & H1 & H2) Hk. rewrite str_app_assoc.
    apply IH1; [exact H1|]. now apply IH2.
Qed.

(** A successful match consumes what it matched. *)
Lemma match_here_sound (r : regex) (s after : string) :
  match_here r s = Some after ->
  exists u, s = u ++ after /\ in_language r u.
Proof.
  intros H. destruct (exec_sound r s Some after H) as (u & rest & -> & Hu & [= ->]).
  now exists u.
Qed.

Lemma search_unfold (r : regex) (s : string) :
  search r s =
  match match_here r s with
  | Some after =>
      Some (String.substring 0 (String.length s - String.length after) s, after)
  | None =>
      match s with
      | EmptyString => None
      | String _ rest => search r rest
      end
  end.
Proof. destruct s; reflexivity. Qed.

Lemma search_sound (r : regex) (s found after : string) :
  search r s = Some (found, after) ->
  exists pre, s = pre ++ found ++ after /\ in_language r found.
Proof.
  induction s as [|c s IH]; rewrite search_unfold.
  - destruct (match_here r "") as [a|] eqn:M; [|discriminate].
    destruct (match_here_sound r "" a M) as (u & Hs & Hu).
    destruct u as [|cu u]; [|discriminate Hs].
    change ("" ++ a) with a in Hs. subst a.
    intros [= <- <-]. exists "". split; [reflexivity|exact Hu].
  - destruct (match_here r (String c s)) as [a|] eqn:M.
    + destruct (match_here_sound r _ a M) as (u & Hs & Hu).
      rewrite Hs, substring_app_prefix. intros [= <- <-].
      exists "". split; [reflexivity|exact Hu].
    + intros H. destruct (IH H) as (pre & -> & Hu).
      exists (String c pre). split; [reflexivity|exact Hu].
Qed.

Lemma search_complete (r : regex) (pre u post : string) :
  in_language r u -> is_Some (search r (pre ++ u ++ post)).
Proof.
  intros Hu. induction pre as [|c pre IH]; str_simpl; rewrite search_unfold.
  - assert (Hm : is_Some (match_here r (u ++ post))).
    { apply exec_complete; [exact Hu|eexists; reflexivity]. }
    destruct Hm as [a ->]. eexists; reflexivity.
  - destruct (match_here r (String c (pre ++ u ++ post)));
      [eexists; reflexivity|exact IH].
Qed.

(** ** [isEmail] *)

Lemma test_true (r : regex) (s : string) :
  test r s = true <->
  exists pre u post, s = pre ++ u ++ post /\ in_language r u.
Proof.
  unfold test. split.
  - destruct (search r s) as [[found after]|] eqn:S; [|discriminate].
    intros _. destruct (search_sound r s found after S) as (pre & Hs & Hu).
    now exists pre, found, after.
  - intros (pre & u & post & -> & Hu).
    now destruct (search_complete r pre u post Hu) as [x ->].
Qed.

Lemma email_language (u : string) :
  in_language email_regex u <->
  exists name domain tld,
    u = name ++ "@" ++ domain ++ "." ++ tld /\
    (name <> "" /\ all_chars email_char name = true) /\
    (domain <> "" /\ all_chars email_char domain = true) /\
    (tld <> "" /\ all_chars email_char tld = true).
Proof.
  simpl. split.
  - intros (name & u2 & -> & Hn & at_ & u3 & -> & -> & domain & u4 & -> & Hd &
            dot & tld & -> & -> & Ht).
    exists name, domain, tld. repeat split; tauto.
  - intros (name & domain & tld & -> & Hn & Hd & Ht).
    exists name, ("@" ++ domain ++ "." ++ tld). repeat split; try tauto.
    exists "@", (domain ++ "." ++ tld). repeat split.
    exists domain, ("." ++ tld). repeat split; try tauto.
    exists ".", tld. repeat split; tauto.
Qed.

(** X16. [isEmail] looks for an address inside its argument, it does not
    require the argument to be one: it accepts exactly the strings that
    contain, anywhere, a non-empty run of word characters, dots and
    hyphens, an at sign, a second such run, a dot and a third such run.
    Whatever stands before and after is not looked at. *)
Theorem isEmail_accepts_containing (s : string) :
  isEmail s = true <->
  exists pre name domain tld post,
    s = pre ++ (name ++ "@" ++ domain ++ "." ++ tld) ++ post /\
    (name <> "" /\ all_chars email_char name = true) /\
    (domain <> "" /\ all_chars email_char domain = true) /\
    (tld <> "" /\ all_chars email_char tld = true).
Proof.
  unfold isEmail. rewrite test_true. split.
  - intros (pre & u & post & -> & Hu). apply email_language in Hu.
    destruct Hu as (name & domain & tld & -> & H).
    now exists pre, name, domain, tld, post.
  - intros (pre & name & domain & tld & post & -> & H).
    exists pre, (name ++ "@" ++ domain ++ "." ++ tld), post.
    split; [reflexivity|]. apply email_language. now exists name, domain, tld.
Qed.

Lemma isEmail_of_language (u : string) :
  in_language email_regex u -> isEmail u = true.
Proof.
  intros Hu. unfold isEmail. apply test_true.
  exists "", u, "". split; [|exact Hu]. now rewrite str_nil_app, str_app_nil_r.
Qed.

(** ** Global matching *)

Lemma matches_sound (r : regex) (fuel : nat) :
  forall s, Forall (in_language r) (matches fuel r s).
Proof.
  induction fuel as [|fuel IH]; intros s; simpl; [constructor|].
  destruct (search r s) as [[found after]|] eqn:S; [|constructor].
  destruct (search_sound r s found after S) as (pre & _ & Hu).
  constructor; [exact Hu|apply IH].
Qed.

Lemma email_nonempty (u : string) : in_language email_regex u -> u <> "".
Proof.
  intros Hu. apply email_language in Hu.
  destruct Hu as (name & domain & tld & -> & [Hn _] & _).
  destruct name; [contradiction|discriminate].
Qed.

(** The length of the text is fuel enough: more changes nothing. *)
Lemma matches_fuel (n : nat) :
  forall (s : string) (fuel : nat),
    String.length s <= n -> String.length s <= fuel ->
    matches fuel email_regex s = matches (String.length s) email_regex s.
Proof.
  induction n as [|n IH]; intros s fuel Hn Hf.
  - destruct s; [|simpl in Hn; lia].
    destruct fuel; reflexivity.
  - destruct (search email_regex s) as [[found after]|] eqn:S.
    + destruct (search_sound _ s found after S) as (pre & Hs & Hu).
      pose proof (email_nonempty found Hu) as Hne.
      assert (Hlen : String.length after < String.length s).
      { rewrite Hs, !str_length_app. destruct found; [contradiction|simpl; lia]. }
      destruct fuel as [|fuel]; [lia|].
      destruct (String.length s) as [|m] eqn:L; [lia|].
      simpl. rewrite S. f_equal.
      rewrite (IH after fuel) by lia. rewrite (IH after m) by lia. reflexivity.
    + destruct fuel as [|fuel]; destruct (String.length s); simpl; rewrite ?S;
        reflexivity.
Qed.

Lemma match_all_none (s : string) :
  isEmail s = false -> match_all email_regex s = None.
Proof.
  unfold isEmail, test, match_all.
  destruct (search email_regex s) eqn:S; [discriminate|]. intros _.
  destruct (String.length s); simpl; [reflexivity|now rewrite S].
Qed.

Lemma match_all_sound (s : string) (found : list string) :
  match_all email_regex s = Some found ->
  found <> [] /\ Forall (in_language email_regex) found.
Proof.
  unfold match_all.
  pose proof (matches_sound email_regex (String.length s) s) as H.
  destruct (matches (String.length s) email_regex s); [discriminate|].
  intros [= <-]. split; [discriminate|exact H].
Qed.

(** No word of these expressions is empty. *)
Lemma language_nonempty (r : regex) (u : string) : in_language r u -> u <> "".
Proof.
  revert u. induction r as [c|class|r1 IH1 r2 IH2]; intros u; simpl.
  - now intros ->.
  - now intros [H _].
  - intros (u1 & u2 & -> & H1 & _). apply IH1 in H1.
    destruct u1; [contradiction|discriminate].
Qed.

Lemma test_false_empty (r : regex) : test r "" = false.
Proof.
  destruct (test r "") eqn:T; [|reflexivity].
  apply test_true in T. destruct T as (pre & u & post & Hs & Hu).
  apply language_nonempty in Hu.
  destruct pre; [|discriminate Hs]. rewrite str_nil_app in Hs.
  destruct u; [contradiction|discriminate Hs].
Qed.

(** The search stops at the first place where the expression matches:
    nothing it skipped holds a match. *)
Lemma search_leftmost (r : regex) (s found after : string) :
  search r s = Some (found, after) ->
  exists pre, s = pre ++ found ++ after /\ in_language r found /\
              test r pre = false.
Proof.
  induction s as [|c s IH]; rewrite search_unfold.
  - destruct (match_here r "") as [a|] eqn:M; [|discriminate].
    destruct (match_here_sound r "" a M) as (u & Hs & Hu).
    destruct u as [|cu u]; [|discriminate Hs].
    now apply language_nonempty in Hu.
  - destruct (match_here r (String c s)) as [a|] eqn:M.
    + destruct (match_here_sound r _ a M) as (u & Hs & Hu).
      rewrite Hs, substring_app_prefix. intros [= <- <-].
      exists "". split; [reflexivity|]. split; [exact Hu|apply test_false_empty].
    + intros H. destruct (IH H) as (pre & -> & Hu & Hpre).
      exists (String c pre). split; [reflexivity|]. split; [exact Hu|].
      unfold test in *. rewrite search_unfold.
      destruct (match_here r (String c pre)) as [a|] eqn:M'; [|exact Hpre].
      destruct (match_here_sound r _ a M') as (u & Hs & Hu').
      assert (Hm : is_Some (match_here r (u ++ a ++ found ++ after))).
      { apply exec_complete; [exact Hu'|eexists; reflexivity]. }
      rewrite <- str_app_assoc, <- Hs in Hm. str_simpl_in Hm.
      rewrite M in Hm. now destruct Hm.
Qed.

(** Global matching cuts the text, from the left, into stretches without
    an address and addresses. *)
Lemma matches_laid_out (fuel : nat) :
  forall s : string,
    String.length s <= fuel ->
    exists (parts : list (string * string)) (rest : string),
      s = laid_out parts rest /\
      Forall (fun part => isEmail (fst part) = false /\
                          in_language email_regex (snd part)) parts /\
      isEmail rest = false /\
      matches fuel email_regex s = map snd parts.
Proof.
  induction fuel as [|fuel IH]; intros s Hlen.
  - destruct s; [|simpl in Hlen; lia].
    exists [], "". split; [reflexivity|]. split; [constructor|].
    split; [apply test_false_empty|reflexivity].
  - simpl. destruct (search email_regex s) as [[found after]|] eqn:S.
    + destruct (search_leftmost _ s found after S) as (pre & Hs & Hu & Hpre).
      pose proof (language_nonempty _ found Hu) as Hne.
      assert (Hafter : String.length after <= fuel).
      { rewrite Hs, !str_length_app in Hlen.
        destruct found; [contradiction|simpl in Hlen; lia]. }
      destruct (IH after Hafter) as (parts & rest & Ha & Hparts & Hrest & Hm).
      exists ((pre, found) :: parts), rest. simpl.
      rewrite <- Ha, Hm. split; [exact Hs|].
      split; [constructor; [split; assumption|exact Hparts]|].
      split; [exact Hrest|reflexivity].
    + exists [], s. split; [reflexivity|]. split; [constructor|].
      split; [|reflexivity]. unfold isEmail, test. now rewrite S.
Qed.

(** ** Lists of items *)

Lemma includes_In (l : list string) (x : string) :
  includes l x = true <-> In x l.
Proof.
  unfold includes. rewrite existsb_exists. split.
  - intros (y & Hy & E). apply String.eqb_eq in E. now subst.
  - intros H. exists x. split; [exact H|apply String.eqb_refl].
Qed.

Lemma includes_false (l : list string) (x : string) :
  includes l x = false <-> ~ In x l.
Proof.
  rewrite <- includes_In. destruct (includes l x); split; intros H;
    try discriminate; try reflexivity.
  now contradiction H.
Qed.

(** ** [validate] *)

Lemma validate_accepts (b : Badges) (email : string) :
  isEmail email = true -> isInList b email = false ->
  validate b email = (b, true).
Proof. intros H1 H2. unfold validate. now rewrite H1, H2. Qed.

Lemma validate_rejects (b : Badges) (email : string) :
  isEmail email = false \/ isInList b email = true ->
  validate b email
  = (mkBadges (_items b) (input_value b) true
              (if isEmail email
               then email ++ " has already been added."
               else email ++ " is not a valid email address.")
              false (list_innerHTML b),
     false).
Proof.
  unfold validate. destruct (isEmail email), (isInList b email); simpl;
    intros [H|H]; try discriminate; reflexivity.
Qed.

(** ** The handlers *)

(** X17. A key press prevents the default action of the key exactly when
    it is a trigger key (Enter, Tab, comma), also when nothing is added.
    It adds the trimmed text of the input when, and only when, the key is
    a trigger key and that text is not empty, accepted by [isEmail] and
    not yet in the list: the value then goes to the end of the items, the
    input is cleared, no error is shown and the list is rendered anew. In
    every other case items, typed text and list stay as they were. *)
Theorem keydown_adds_new_valid_value (key : string) (b : Badges) :
  let value := trim (input_value b) in
  let b' := fst (handleKeyDown key b) in
  snd (handleKeyDown key b) = includes TRIGGER_KEYS key /\
  if includes TRIGGER_KEYS key && negb (String.eqb value "") &&
     isEmail value && negb (isInList b value)
  then
    b' = mkBadges (_items b ++ [value]) "" false (error_textContent b) true
                  (join "" (map item_markup (_items b ++ [value]))) /\
    rendered b' /\ ~ In value (_items b)
  else
    _items b' = _items b /\ input_value b' = input_value b /\
    list_innerHTML b' = list_innerHTML b.
Proof.
  cbv zeta. unfold handleKeyDown. cbn [input_value _items].
  destruct (includes TRIGGER_KEYS key) eqn:K; cbn [andb];
    [|split; [reflexivity|now repeat split]].
  destruct (String.eqb (trim (input_value b)) "") eqn:E; cbn [negb andb];
    [split; [reflexivity|now repeat split]|].
  set (b1 := mkBadges _ _ _ _ _ _).
  change (isInList b (trim (input_value b)))
    with (isInList b1 (trim (input_value b))).
  destruct (isEmail (trim (input_value b))) eqn:He; cbn [andb];
    [destruct (isInList b1 (trim (input_value b))) eqn:Hi; cbn [negb]|].
  - rewrite (validate_rejects b1 _ (or_intror Hi)).
    split; [reflexivity|now repeat split].
  - rewrite (validate_accepts b1 _ He Hi). split; [reflexivity|].
    split; [reflexivity|]. split; [reflexivity|].
    now apply includes_false in Hi.
  - rewrite (validate_rejects b1 _ (or_introl He)).
    split; [reflexivity|now repeat split].
Qed.

(** X18. A value that [validate] turns down is not lost: the items and the
    typed text stay, the input is marked and the message is shown, "is
    not a valid email address" when [isEmail] rejects the value, "has
    already been added" when it is valid and in the list. *)
Theorem keydown_rejection_keeps_text (key : string) (b : Badges) :
  includes TRIGGER_KEYS key = true ->
  trim (input_value b) <> "" ->
  isEmail (trim (input_value b)) = false \/ In (trim (input_value b)) (_items b) ->
  let value := trim (input_value b) in
  fst (handleKeyDown key b)
  = mkBadges (_items b) (input_value b) true
             (if isEmail value
              then value ++ " has already been added."
              else value ++ " is not a valid email address.")
             false (list_innerHTML b).
Proof.
  intros K Hne Hrej. cbv zeta. unfold handleKeyDown. rewrite K.
  cbn [input_value]. apply String.eqb_neq in Hne. rewrite Hne. cbn [negb].
  rewrite validate_rejects; [reflexivity|].
  destruct Hrej as [H|H]; [now left|right]. now apply includes_In.
Qed.

Lemma keydown_rejection_keeps_text_witness :
  includes TRIGGER_KEYS "Enter" = true /\
  trim " gibberish " <> "" /\ isEmail (trim " gibberish ") = false /\
  fst (handleKeyDown "Enter" (mkBadges ["a@b.c"] " gibberish " false "" true ""))
  = mkBadges ["a@b.c"] " gibberish " true
             "gibberish is not a valid email address." false "".
Proof.
  split; [reflexivity|]. split; [discriminate|]. split; [reflexivity|].
  apply (keydown_rejection_keeps_text "Enter"
           (mkBadges ["a@b.c"] " gibberish " false "" true ""));
    [reflexivity|discriminate|left; reflexivity].
Defined.

Lemma filter_sublist {A : Type} (f : A -> bool) (l : list A) :
  sublist (List.filter f l) l.
Proof.
  induction l as [|x l IH]; simpl; [constructor|].
  destruct (f x); now constructor.
Qed.

Lemma filter_Forall {A : Type} (P : A -> Prop) (f : A -> bool) (l : list A) :
  Forall P l -> Forall P (List.filter f l).
Proof.
  induction 1 as [|x l Hx _ IH]; simpl; [constructor|].
  destruct (f x); [now constructor|exact IH].
Qed.




Lemma address_chars (u : string) :
  in_language email_regex u ->
  all_chars (fun c => email_char c || Ascii.eqb c "@") u = true.
Proof.
  intros Hu. apply email_language in Hu.
  destruct Hu as (name & domain & tld & -> & [_ Hn] & [_ Hd] & [_ Ht]).
  assert (Hw : forall s, all_chars email_char s = true ->
                         all_chars (fun c => email_char c || Ascii.eqb c "@") s = true).
  { induction s as [|c s IH]; simpl; [reflexivity|].
    destruct (email_char c); [|discriminate]. exact IH. }
  rewrite !all_chars_app, (Hw _ Hn), (Hw _ Hd), (Hw _ Ht). reflexivity.
Qed.

(** X20. A paste only appends, and what it appends comes from the pasted
    text: the text is cut, from the left, into stretches that hold no
    address and the addresses that follow them, and the items added are
    these addresses, in their order, less those that were in the list
    before. So the items already there stay in front, and each item added
    is accepted by [isEmail] and consists of word characters, dots, hyphens
    and at signs only. The typed text and the error display are not
    touched, and a text without an address changes nothing at all. *)
Theorem paste_appends_found_addresses (paste : string) (b : Badges) :
  let b' := handlePaste paste b in
  (exists (parts : list (string * string)) (rest : string) (added : list string),
      paste = laid_out parts rest /\
      Forall (fun part => isEmail (fst part) = false /\
                          in_language email_regex (snd part)) parts /\
      isEmail rest = false /\
      added = List.filter (fun e => negb (isInList b e)) (map snd parts) /\
      _items b' = (_items b ++ added)%list /\
      Forall (fun e => isEmail e = true /\
                       all_chars (fun c => email_char c || Ascii.eqb c "@") e = true /\
                       ~ In e (_items b)) added) /\
  input_value b' = input_value b /\
  input_has_error b' = input_has_error b /\
  error_textContent b' = error_textContent b /\
  error_hidden b' = error_hidden b /\
  (if isEmail paste then rendered b' else b' = b).
Proof.
  cbv zeta.
  destruct (matches_laid_out (String.length paste) paste (Nat.le_refl _))
    as (parts & rest & Hs & Hparts & Hrest & Hm).
  assert (Hadded : Forall (fun e => isEmail e = true /\
                       all_chars (fun c => email_char c || Ascii.eqb c "@") e = true /\
                       ~ In e (_items b))
                     (List.filter (fun e => negb (isInList b e)) (map snd parts))).
  { clear Hs Hm. induction Hparts as [|[gap e] parts [_ He] _ IH]; simpl;
      [constructor|].
    destruct (isInList b e) eqn:Hi; simpl; [exact IH|].
    constructor; [|exact IH]. repeat split.
    - now apply isEmail_of_language.
    - now apply address_chars.
    - now apply includes_false in Hi. }
  unfold handlePaste, match_all. rewrite Hm.
  destruct parts as [|[gap e] parts]; simpl.
  - simpl in Hs. subst rest. rewrite Hrest.
    split; [|now repeat split].
    exists [], paste, []. simpl. rewrite app_nil_r.
    split; [reflexivity|]. split; [constructor|]. split; [exact Hrest|].
    split; [reflexivity|]. split; [reflexivity|constructor].
  - split.
    + exists ((gap, e) :: parts), rest. eexists.
      split; [exact Hs|]. split; [exact Hparts|]. split; [exact Hrest|].
      split; [reflexivity|]. split; [reflexivity|exact Hadded].
    + do 4 (split; [reflexivity|]).
      assert (He : isEmail paste = true).
      { apply test_true. apply Forall_cons in Hparts as [[_ He] _].
        exists gap, e, (laid_out parts rest). split; [exact Hs|exact He]. }
      rewrite He. reflexivity.
Qed.

(** ** Sessions *)

Lemma rendered_update (b : Badges) : rendered (update b).
Proof. reflexivity. Qed.

Lemma keydown_cases (key : string) (b : Badges) :
  let b' := fst (handleKeyDown key b) in
  (_items b' = _items b /\ list_innerHTML b' = list_innerHTML b) \/
  (exists value, _items b' = (_items b ++ [value])%list /\
                 isEmail value = true /\ ~ In value (_items b) /\ rendered b').
Proof.
  cbv zeta. unfold handleKeyDown. cbn [input_value _items].
  destruct (includes TRIGGER_KEYS key); [|now left].
  destruct (String.eqb (trim (input_value b)) ""); cbn [negb]; [now left|].
  set (b1 := mkBadges _ _ _ _ _ _).
  destruct (isEmail (trim (input_value b))) eqn:He;
    [destruct (isInList b1 (trim (input_value b))) eqn:Hi|].
  - rewrite (validate_rejects b1 _ (or_intror Hi)). now left.
  - rewrite (validate_accepts b1 _ He Hi). right.
    exists (trim (input_value b)). repeat split; try assumption.
    now apply includes_false in Hi.
  - rewrite (validate_rejects b1 _ (or_introl He)). now left.
Qed.

Lemma paste_cases (paste : string) (b : Badges) :
  (rendered b -> rendered (handlePaste paste b)) /\
  exists added : list string,
    _items (handlePaste paste b) = (_items b ++ added)%list /\
    Forall (fun e => isEmail e = true) added.
Proof.
  unfold handlePaste.
  destruct (match_all email_regex paste) as [found|] eqn:M.
  - destruct (match_all_sound paste found M) as [_ Hall].
    split; [intros _; reflexivity|].
    eexists. split; [reflexivity|]. apply filter_Forall.
    eapply Forall_impl; [exact Hall|]. intros e He. now apply isEmail_of_language.
  - split; [trivial|]. exists []. split; [now rewrite app_nil_r|constructor].
Qed.

Lemma handle_keeps_invariants (e : user_event) (b : Badges) :
  rendered b -> Forall (fun x => isEmail x = true) (_items b) ->
  rendered (handle e b) /\
  Forall (fun x => isEmail x = true) (_items (handle e b)).
Proof.
  intros Hr Hv. destruct e as [text|key|target|text]; cbn [handle].
  - split; assumption.
  - destruct (keydown_cases key b) as [(Hi & Hl)|(value & Hi & He & _ & Hr')].
    + unfold rendered in *. rewrite Hi, Hl. split; assumption.
    + split; [exact Hr'|]. rewrite Hi. apply Forall_app. split; [exact Hv|].
      now constructor.
  - unfold handleDelete. destruct (String.eqb (tagName target) "BUTTON");
      [|split; assumption].
    split; [reflexivity|]. cbn [update _items].
    now apply filter_Forall.
  - destruct (paste_cases text b) as (Hr' & added & Hi & Ha).
    split; [now apply Hr'|].
    rewrite Hi. apply Forall_app. now split.
Qed.

Lemma handle_keeps_NoDup (e : user_event) (b : Badges) :
  match e with Paste _ => False | _ => True end ->
  NoDup (_items b) -> NoDup (_items (handle e b)).
Proof.
  intros He Hn. destruct e as [text|key|target|text]; cbn [handle];
    [exact Hn| | |contradiction].
  - destruct (keydown_cases key b) as [(Hi & _)|(value & Hi & _ & Hnew & _)].
    + now rewrite Hi.
    + rewrite Hi.
      apply NoDup_app. split; [exact Hn|]. split; [|apply NoDup_singleton].
      intros x Hx Hx'. apply list_elem_of_singleton in Hx'. subst x.
      apply Hnew. now apply list_elem_of_In.
  - unfold handleDelete. destruct (String.eqb (tagName target) "BUTTON");
      [|exact Hn].
    cbn [update _items]. eapply sublist_NoDup; [exact Hn|apply filter_sublist].
Qed.

(** X21. Whatever the user types, presses, clicks and pastes, starting from the
    constructed component: the list always shows exactly the items, and
    every item is a text that [isEmail] accepts. *)
Theorem session_shows_valid_items (events : list user_event) :
  rendered (session events constructor) /\
  Forall (fun x => isEmail x = true) (_items (session events constructor)).
Proof.
  assert (G : forall b, rendered b -> Forall (fun x => isEmail x = true) (_items b) ->
                rendered (session events b) /\
                Forall (fun x => isEmail x = true) (_items (session events b))).
  { induction events as [|e events IH]; intros b Hr Hv; [now split|].
    destruct (handle_keeps_invariants e b Hr Hv) as [Hr' Hv'].
    exact (IH (handle e b) Hr' Hv'). }
  apply G; [reflexivity|constructor].
Qed.

(** X22. As long as nothing is pasted, no value is in the list twice: the
    keyboard cannot add a value that is there, and a click only removes. *)
Theorem session_without_paste_has_no_duplicates (events : list user_event) :
  without_paste events = true ->
  NoDup (_items (session events constructor)).
Proof.
  assert (G : forall b, without_paste events = true -> NoDup (_items b) ->
                NoDup (_items (session events b))).
  { induction events as [|e events IH]; intros b Hp Hn; [exact Hn|].
    unfold without_paste in Hp. simpl in Hp. apply andb_true_iff in Hp as [He Hp].
    apply (IH (handle e b) Hp). apply handle_keeps_NoDup; [|exact Hn].
    now destruct e. }
  intros Hp. apply G; [exact Hp|constructor].
Qed.

Lemma session_without_paste_has_no_duplicates_witness :
  without_paste [Typed "a@b.c"; KeyDown "Enter"; Typed " a@b.c"; KeyDown ","] = true /\
  _items (session [Typed "a@b.c"; KeyDown "Enter"; Typed " a@b.c"; KeyDown ","]
                  constructor) = ["a@b.c"] /\
  NoDup (_items (session [Typed "a@b.c"; KeyDown "Enter"; Typed " a@b.c"; KeyDown ","]
                         constructor)).
Proof.
  split; [reflexivity|]. split; [reflexivity|].
  apply (session_without_paste_has_no_duplicates
           [Typed "a@b.c"; KeyDown "Enter"; Typed " a@b.c"; KeyDown ","]).
  reflexivity.
Defined.

(** A paste is not held to that: it leaves out what is in the list, not
    what it brings twice. *)
Example paste_can_duplicate :
  _items (session [Paste "a@b.c, a@b.c"] constructor) = ["a@b.c"; "a@b.c"].
Proof. reflexivity. Qed.

Lemma filter_absent (v : string) (l : list string) :
  ~ In v l -> List.filter (fun item => negb (String.eqb item v)) l = l.
Proof.
  induction l as [|x l IH]; simpl; [reflexivity|]. intros H.
  destruct (String.eqb x v) eqn:E.
  - apply String.eqb_eq in E. subst. contradiction H. now left.
  - simpl. rewrite IH; [reflexivity|]. intros Hin. apply H. now right.
Qed.

(** ** The buttons read back from the markup *)

Lemma expect_app (lit s : string) : expect lit (lit ++ s) = Some s.
Proof.
  induction lit as [|c lit IH]; str_simpl; simpl; [reflexivity|].
  now rewrite Ascii.eqb_refl.
Qed.

Lemma read_until_app (stop : ascii) (u rest : string) :
  all_chars (fun c => verbatim c && negb (Ascii.eqb c stop)) u = true ->
  read_until stop (u ++ String stop rest) = Some (u, rest).
Proof.
  induction u as [|c u IH]; str_simpl; simpl.
  - now rewrite Ascii.eqb_refl.
  - intros H. apply andb_true_iff in H as [Hc Hu].
    apply andb_true_iff in Hc as [Hv Hs].
    destruct (Ascii.eqb c stop); [discriminate|].
    now rewrite Hv, (IH Hu).
Qed.

Lemma all_chars_impl (P Q : ascii -> bool) (u : string) :
  (forall c, P c = true -> Q c = true) ->
  all_chars P u = true -> all_chars Q u = true.
Proof.
  intros HPQ. induction u as [|c u IH]; simpl; [reflexivity|].
  intros H. apply andb_true_iff in H as [Hc Hu].
  now rewrite (HPQ c Hc), (IH Hu).
Qed.

(** The reader finds, in the markup of a plain item, the item as the value
    of its button. *)
Lemma read_badge_markup (item rest : string) :
  plain item = true ->
  read_badge (item_markup item ++ rest) = Some (item, rest).
Proof.
  intros Hp.
  assert (E : item_markup item ++ rest
              = (newline ++ "      <li>") ++
                ((newline ++ "        " ++ item ++ newline ++ "        ") ++
                 String "<"
                   (("button type=" ++ quote ++ "button" ++ quote ++
                     " data-value=" ++ quote) ++
                    (item ++
                     String (ascii_of_nat 34)
                       ((">&times;</button>" ++
                         newline ++ "      </li>" ++
                         newline ++ "      ") ++ rest))))).
  { unfold item_markup, newline, quote.
    rewrite !str_app_assoc. str_simpl. reflexivity. }
  rewrite E. unfold read_badge. rewrite expect_app.
  rewrite read_until_app.
  - rewrite expect_app. rewrite read_until_app.
    + now rewrite expect_app.
    + revert Hp. apply all_chars_impl. intros c Hc.
      apply andb_true_iff in Hc as [Hc Hq]. apply andb_true_iff in Hc as [Hv _].
      now rewrite Hv, Hq.
  - assert (Hi : all_chars (fun c => verbatim c && negb (Ascii.eqb c "<")) item
                 = true).
    { revert Hp. apply all_chars_impl. intros c Hc.
      apply andb_true_iff in Hc as [Hc _]. exact Hc. }
    rewrite !all_chars_app, Hi. reflexivity.
Qed.

Lemma join_cons (x : string) (l : list string) :
  join "" (x :: l) = x ++ join "" l.
Proof. destruct l; simpl; [now rewrite str_app_nil_r|now str_simpl]. Qed.

Lemma item_markup_cons (item rest : string) :
  exists c tail, item_markup item ++ rest = String c tail.
Proof.
  unfold item_markup, newline. rewrite !str_app_assoc. str_simpl.
  eexists _, _. reflexivity.
Qed.

Lemma read_badges_markup (items : list string) :
  forall fuel : nat,
    Forall (fun item => plain item = true) items ->
    length items <= fuel ->
    read_badges fuel (join "" (map item_markup items)) = Some items.
Proof.
  induction items as [|item items IH]; intros fuel Hp Hf.
  - now destruct fuel.
  - apply Forall_cons in Hp as [Hitem Hitems].
    destruct fuel as [|fuel]; [simpl in Hf; lia|].
    change (map item_markup (item :: items))
      with (item_markup item :: map item_markup items).
    rewrite join_cons.
    destruct (item_markup_cons item (join "" (map item_markup items)))
      as (c & tail & E).
    simpl. rewrite E. rewrite <- E.
    rewrite (read_badge_markup _ _ Hitem).
    rewrite (IH fuel Hitems) by (simpl in Hf; lia). reflexivity.
Qed.

Lemma markup_length (items : list string) :
  length items <= String.length (join "" (map item_markup items)).
Proof.
  induction items as [|item items IH]; [simpl; lia|].
  change (map item_markup (item :: items))
    with (item_markup item :: map item_markup items).
  rewrite join_cons, str_length_app.
  destruct (item_markup_cons item "") as (c & tail & E).
  rewrite str_app_nil_r in E. rewrite E. simpl. lia.
Qed.

Lemma buttons_rendered (items : list string) :
  Forall (fun item => plain item = true) items ->
  buttons (join "" (map item_markup items))
  = Some (map (fun v => mkClickTarget "BUTTON" (Some v)) items).
Proof.
  intros Hp. unfold buttons.
  now rewrite (read_badges_markup items _ Hp (markup_length items)).
Qed.

(** X23. Adding and deleting cancel out, as long as the items bring no
    markup of their own (no "<", "&" or double quote): a value the keyboard
    added gets the last button of the list, and after a click on that
    button, as the browser reads it back from the markup, the value is gone
    again, the items and the list markup being what they were before the
    key press. *)
Theorem keyboard_add_then_delete (key : string) (b : Badges) :
  includes TRIGGER_KEYS key = true ->
  trim (input_value b) <> "" ->
  isEmail (trim (input_value b)) = true ->
  ~ In (trim (input_value b)) (_items b) ->
  rendered b ->
  Forall (fun item => plain item = true) (_items b ++ [trim (input_value b)]) ->
  let value := trim (input_value b) in
  let added := fst (handleKeyDown key b) in
  exists (others : list ClickTarget) (target : ClickTarget),
    buttons (list_innerHTML added) = Some (others ++ [target])%list /\
    length others = length (_items b) /\
    _items added = (_items b ++ [value])%list /\
    _items (handleDelete target added) = _items b /\
    list_innerHTML (handleDelete target added) = list_innerHTML b.
Proof.
  intros K Hne He Hnew Hr Hp. cbv zeta. unfold handleKeyDown. rewrite K.
  cbn [input_value]. apply String.eqb_neq in Hne. rewrite Hne. cbn [negb].
  rewrite validate_accepts; [|exact He|now apply includes_false].
  cbn [fst update _items list_innerHTML].
  exists (map (fun v => mkClickTarget "BUTTON" (Some v)) (_items b)),
         (mkClickTarget "BUTTON" (Some (trim (input_value b)))).
  split; [|split; [|split; [|split]]].
  - rewrite (buttons_rendered _ Hp). now rewrite map_app.
  - apply length_map.
  - reflexivity.
  - unfold handleDelete. cbn [tagName dataset_value]. rewrite String.eqb_refl.
    cbn [update _items].
    rewrite List.filter_app, (filter_absent _ _ Hnew). simpl.
    rewrite String.eqb_refl. simpl. now rewrite app_nil_r.
  - unfold handleDelete. cbn [tagName dataset_value]. rewrite String.eqb_refl.
    cbn [update _items list_innerHTML].
    rewrite List.filter_app, (filter_absent _ _ Hnew). simpl.
    rewrite String.eqb_refl. simpl. rewrite app_nil_r. symmetry. exact Hr.
Qed.

Lemma keyboard_add_then_delete_witness :
  includes TRIGGER_KEYS "Tab" = true /\
  isEmail (trim " jane.doe@gmail.com ") = true /\
  plain "jane.doe@gmail.com" = true /\
  exists target : ClickTarget,
    buttons (list_innerHTML
               (fst (handleKeyDown "Tab"
                       (handle (Typed " jane.doe@gmail.com ") constructor))))
    = Some [target] /\
    _items (fst (handleKeyDown "Tab"
                   (handle (Typed " jane.doe@gmail.com ") constructor)))
    = ["jane.doe@gmail.com"] /\
    _items (handleDelete target
              (fst (handleKeyDown "Tab"
                      (handle (Typed " jane.doe@gmail.com ") constructor))))
    = [].
Proof.
  split; [reflexivity|]. split; [reflexivity|]. split; [reflexivity|].
  destruct (keyboard_add_then_delete "Tab"
              (handle (Typed " jane.doe@gmail.com ") constructor))
    as (others & target & Hb & Hl & Ha & Hd & _);
    [reflexivity|discriminate|reflexivity|intros []|reflexivity|
     repeat constructor|].
  destruct others; [|discriminate Hl].
  exists target. split; [exact Hb|]. split; [exact Ha|exact Hd].
Defined.

(** With a double quote in it an accepted value ends the attribute of its
    own button early. The markup is then no longer a list of plain badges:
    in a browser the button carries the text before the quote, and the
    click removes another item or none. *)
Example quote_breaks_the_button :
  isEmail (quote ++ "a@b.c") = true /\
  _items (session [Typed (quote ++ "a@b.c"); KeyDown "Enter"] constructor)
  = [quote ++ "a@b.c"] /\
  buttons (list_innerHTML
             (session [Typed (quote ++ "a@b.c"); KeyDown "Enter"] constructor))
  = None.
Proof. repeat split; vm_compute; reflexivity. Qed.

Lemma match_all_some (s : string) :
  isEmail s = true ->
  exists first others, match_all email_regex s = Some (first :: others).
Proof.
  unfold isEmail, test, match_all.
  destruct (search email_regex s) as [[found after]|] eqn:S; [|discriminate].
  intros _. destruct (search_sound _ s found after S) as (pre & Hs & Hu).
  pose proof (email_nonempty found Hu) as Hne.
  destruct (String.length s) as [|n] eqn:L.
  - rewrite Hs, !str_length_app in L. destruct found; [contradiction|].
    simpl in L. lia.
  - simpl. rewrite S. eexists _, _. reflexivity.
Qed.

End BadgeInputProperties.

(** * Properties of the email chips in React *)

Module EmailChipsProperties.

Import EmailChips.

Section NoItems.

Context (host : Host).

(** Nothing on the prototype chain of an object answers to "items" (no
    built-in prototype defines it). *)
Hypothesis no_inherited_items :
  forall fs : gmap string value, inherited host (VObj fs) "items" = VUndefined.

Lemma isInList_throws (st : gmap string value) (email : string) :
  st !! "items" = None -> isInList host st email = Throw TypeError.
Proof.
  intros H. unfold isInList, read, get. rewrite H, no_inherited_items.
  reflexivity.
Qed.

Lemma keydown_result (key text : string) (st : gmap string value) :
  st !! "items" = None ->
  st !! "value" = Some (VStr text) ->
  handleKeyDown host key st
  = (BadgeInput.includes ["Enter"; "Tab"; ","] key,
     if BadgeInput.includes ["Enter"; "Tab"; ","] key
        && negb (String.eqb (BadgeInput.trim text) "")
     then Throw TypeError else Normal st).
Proof.
  intros Hi Hv. unfold handleKeyDown.
  destruct (BadgeInput.includes ["Enter"; "Tab"; ","] key); [|reflexivity].
  unfold read, get. rewrite Hv. cbn [and_then trim_of andb].
  destruct (String.eqb (BadgeInput.trim text) ""); cbn [negb]; [reflexivity|].
  unfold isValid. now rewrite (isInList_throws st _ Hi).
Qed.

Lemma paste_result (paste : string) (st : gmap string value) :
  st !! "items" = None ->
  handlePaste host paste st
  = if isEmail paste then Throw TypeError else Normal st.
Proof.
  intros Hi. unfold handlePaste, isEmail.
  destruct (BadgeInput.test BadgeInput.email_regex paste) eqn:E.
  - destruct (BadgeInputProperties.match_all_some paste E) as (e & rest & ->).
    cbn [filter_throwing]. now rewrite (isInList_throws st e Hi).
  - now rewrite (BadgeInputProperties.match_all_none paste E).
Qed.

(** X24. [isInList] reads [this.state.items], and the state has [emails]: on a
    state without an entry of that name the property is undefined and
    reading [includes] off it throws a TypeError. So [isValid] throws for
    every argument; a trigger key pressed on a non-blank text throws,
    after the default action was prevented; and a paste throws as soon as
    the text contains an address. The state is left as it was. *)
Theorem validation_throws_without_items
        (key text paste email : string) (st : gmap string value) :
  st !! "items" = None ->
  st !! "value" = Some (VStr text) ->
  isValid host st email = Throw TypeError /\
  handleKeyDown host key st
  = (BadgeInput.includes ["Enter"; "Tab"; ","] key,
     if BadgeInput.includes ["Enter"; "Tab"; ","] key
        && negb (String.eqb (BadgeInput.trim text) "")
     then Throw TypeError else Normal st) /\
  handlePaste host paste st
  = (if isEmail paste then Throw TypeError else Normal st).
Proof.
  intros Hi Hv. split; [|split].
  - unfold isValid. now rewrite (isInList_throws st email Hi).
  - exact (keydown_result key text st Hi Hv).
  - exact (paste_result paste st Hi).
Qed.

Lemma handle_keeps_no_chips (e : user_event) (st : gmap string value) :
  no_chips st ->
  no_chips (match handle host e st with Normal st' => st' | Throw _ => st end).
Proof.
  intros (Hi & He & text & Hv). destruct e as [t|key|email|t]; cbn [handle].
  - unfold handleChange, setState, no_chips.
    split; [now rewrite lookup_union_r by reflexivity|].
    split; [now rewrite lookup_union_r by reflexivity|].
    exists t. apply lookup_union_Some_l. reflexivity.
  - rewrite (keydown_result key text st Hi Hv). cbn [snd].
    destruct (_ && _); repeat split; eauto.
  - unfold handleDelete, read, get. rewrite He. cbn [and_then filter_of List.filter].
    unfold setState, no_chips.
    split; [now rewrite lookup_union_r by reflexivity|].
    split; [apply lookup_union_Some_l; reflexivity|].
    exists text. now rewrite lookup_union_r by reflexivity.
  - rewrite (paste_result t st Hi).
    destruct (isEmail t); repeat split; eauto.
Qed.

(** X25. With the validation in place the list stays empty for good: whatever
    the user types, presses, deletes or pastes from the initial state on,
    [emails] is the empty array and there is no [items]. *)
Theorem no_address_is_ever_added (events : list user_event) :
  session host events initial_state !! "emails" = Some (VArr []) /\
  session host events initial_state !! "items" = None.
Proof.
  assert (G : forall st, no_chips st -> no_chips (session host events st)).
  { induction events as [|e events IH]; intros st H; [exact H|].
    apply (IH _ (handle_keeps_no_chips e st H)). }
  destruct (G initial_state) as (Hi & He & _); [|now split].
  repeat split. now exists "".
Qed.

End NoItems.

Lemma validation_throws_without_items_witness :
  handleChange "a@b.c" initial_state !! "items" = None /\
  handleChange "a@b.c" initial_state !! "value" = Some (VStr "a@b.c") /\
  handleKeyDown bare_host "Enter" (handleChange "a@b.c" initial_state)
  = (true, Throw TypeError) /\
  handlePaste bare_host "To: <a@b.c>" (handleChange "a@b.c" initial_state)
  = Throw TypeError.
Proof.
  split; [reflexivity|]. split; [reflexivity|].
  destruct (validation_throws_without_items bare_host (fun _ => eq_refl)
              "Enter" "a@b.c" "To: <a@b.c>" "a@b.c"
              (handleChange "a@b.c" initial_state) eq_refl eq_refl)
    as (_ & Hk & Hp).
  split; [exact Hk|exact Hp].
Defined.

Lemma no_address_is_ever_added_witness :
  session bare_host [Change "a@b.c"; KeyDown "Enter"; Paste "x@y.z"; Delete "a@b.c"]
          initial_state !! "emails" = Some (VArr []).
Proof.
  exact (proj1 (no_address_is_ever_added bare_host (fun _ => eq_refl)
                  [Change "a@b.c"; KeyDown "Enter"; Paste "x@y.z"; Delete "a@b.c"])).
Defined.

End EmailChipsProperties.

(** * The click counter *)

Module ClickCounterProperties.

Import ClickCounter.

Lemma nearest_double_small (z : Z) :
  (Z.abs z < 2 ^ 53)%Z -> nearest_double z = Some z.
Proof.
  intros H. unfold nearest_double. cbv zeta.
  apply Z.ltb_lt in H. now rewrite H.
Qed.

Lemma increment_below (k : Z) :
  (0 <= k < 2 ^ 53)%Z -> increment k = (k + 1)%Z.
Proof.
  intros Hk. unfold increment.
  rewrite nearest_double_small by (rewrite Z.abs_eq; lia).
  destruct (Z.eq_dec (k + 1)%Z (2 ^ 53)%Z) as [E|E].
  - rewrite E. reflexivity.
  - rewrite nearest_double_small by (rewrite Z.abs_eq; lia). reflexivity.
Qed.

Lemma increment_top : increment (2 ^ 53) = (2 ^ 53)%Z.
Proof. reflexivity. Qed.

(** X26. The n-th click is announced as n as long as the count is below
    2^53 = 9007199254740992: the count goes up by one with each click and
    the "clicked" events carry the counts in between, 1, 2, ..., n on a
    fresh counter. At 2^53 the count stops: one more is not a number the
    count can hold, it stays what it is and every further click is
    announced as 2^53. *)
Theorem clicks_are_numbered (n : nat) (c : Counter) :
  (0 <= _timesClicked c <= 2 ^ 53)%Z ->
  let count := fun i : nat => Z.min (_timesClicked c + Z.of_nat i) (2 ^ 53) in
  _timesClicked (clicks n c) = count n /\
  dispatched (clicks n c) = (dispatched c ++ map count (seq 1 n))%list /\
  clicks n constructor
  = mkCounter (Z.min (Z.of_nat n) (2 ^ 53))
              (map (fun i : nat => Z.min (Z.of_nat i) (2 ^ 53)) (seq 1 n)).
Proof.
  assert (G : forall k d, (0 <= k <= 2 ^ 53)%Z ->
                clicks n (mkCounter k d)
                = mkCounter (Z.min (k + Z.of_nat n) (2 ^ 53))
                            (d ++ map (fun i : nat => Z.min (k + Z.of_nat i) (2 ^ 53))
                                      (seq 1 n))).
  { induction n as [|n IH]; intros k d Hk.
    - simpl. rewrite app_nil_r, Z.add_0_r, Z.min_l by lia. reflexivity.
    - change (clicks (S n) (mkCounter k d))
        with (onclick (clicks n (mkCounter k d))).
      rewrite (IH k d Hk). unfold onclick. cbn [_timesClicked dispatched].
      assert (E : increment (Z.min (k + Z.of_nat n) (2 ^ 53))
                  = Z.min (k + Z.of_nat (S n)) (2 ^ 53)).
      { destruct (Z.lt_ge_cases (k + Z.of_nat n) (2 ^ 53)) as [Hlt|Hge].
        - rewrite Z.min_l by lia. rewrite increment_below by lia.
          rewrite Z.min_l by lia. lia.
        - rewrite !Z.min_r by lia. apply increment_top. }
      rewrite E, seq_S, map_app, app_assoc. reflexivity. }
  intros Hc count. destruct c as [k d]. cbn [_timesClicked dispatched] in *.
  rewrite (G k d Hc). cbn [_timesClicked dispatched].
  split; [reflexivity|]. split; [reflexivity|].
  unfold constructor. rewrite G by lia. reflexivity.
Qed.

(** Three clicks on a counter that stands at 2^53 - 1. *)
Lemma clicks_are_numbered_witness :
  (0 <= _timesClicked (mkCounter 9007199254740991 []) <= 2 ^ 53)%Z /\
  dispatched (clicks 3 (mkCounter 9007199254740991 []))
  = [9007199254740992; 9007199254740992; 9007199254740992]%Z.
Proof.
  split; [simpl; lia|].
  exact (proj1 (proj2 (clicks_are_numbered 3 (mkCounter 9007199254740991 [])
                                            ltac:(simpl; lia)))).
Defined.

End ClickCounterProperties.
